(** * pvfs2-mod.c: module initialisation, teardown and the purge sweep

    A shallow embedding of [fs/orangefs/pvfs2-mod.c]: the module-scope
    variables become one record, the three functions of the file
    ([pvfs2_init], [pvfs2_exit], [purge_inprogress_ops]) become programs of
    a small state monad that also keeps a log of the calls made, and the
    statements about them are proved over that embedding.  Calls that only
    write to the system log ([pr_info], [gossip_debug], [gossip_err]) are
    left out. *)

From Stdlib Require Import ZArith Lia.
From stdpp Require Import base list.

Local Open Scope Z_scope.

(** ** Machine integers *)

Definition to_u32 (z : Z) : Z := z mod 2 ^ 32.
Definition to_u64 (z : Z) : Z := z mod 2 ^ 64.
Definition is_int (z : Z) : Prop := - 2 ^ 31 <= z < 2 ^ 31.

(** [size_t] and [sizeof(struct list_head)] on a 64-bit kernel. *)
Definition SIZE_MAX : Z := 2 ^ 64 - 1.
Definition sizeof_list_head : Z := 16.
Definition ENOMEM : Z := 12.

(** ** Operation records *)

(** Modelled from the spec: the states of an operation record.  The macros
    [OP_VFS_STATE_*] and [set_op_state_purged] live in pvfs2-kernel.h, which
    is not part of the sources at hand; section 3 of the specification
    lists the states. *)
Inductive vfs_op_state :=
  | Created | Queued | Claimed | Serviced | TimedOut | Purged | Cancelled.

#[global] Instance vfs_op_state_eq_dec : EqDecision vfs_op_state.
Proof. solve_decision. Defined.

Definition terminal (s : vfs_op_state) : bool :=
  match s with
  | Serviced | TimedOut | Cancelled | Purged => true
  | Created | Queued | Claimed => false
  end.

Definition blob := list Z.

(** [struct pvfs2_kernel_op_s], restricted to what this file reads and
    writes.  [op->list] is the intrusive linkage: a record that sits on a
    list is an element of that list below.  [op->lock] shows up in the log
    as [op_lock (tag op)]; [op->waitq] is represented by the number of
    wake-ups delivered to it. *)
Record pvfs2_kernel_op_s := mk_op {
  tag : Z;
  upcall_type : Z;
  downcall : option blob;
  op_state : vfs_op_state;
  waitq_wakeups : nat;
}.

#[global] Instance pvfs2_kernel_op_s_eq_dec : EqDecision pvfs2_kernel_op_s.
Proof. solve_decision. Defined.

Definition with_op_state (s : vfs_op_state) (op : pvfs2_kernel_op_s) :=
  mk_op (tag op) (upcall_type op) (downcall op) s (waitq_wakeups op).

Definition with_downcall (r : blob) (op : pvfs2_kernel_op_s) :=
  mk_op (tag op) (upcall_type op) (Some r) (op_state op) (waitq_wakeups op).

Definition woken (op : pvfs2_kernel_op_s) :=
  mk_op (tag op) (upcall_type op) (downcall op) (op_state op)
        (S (waitq_wakeups op)).

(** A [struct list_head] slot of the hash table: [kcalloc] hands out
    zero-filled memory, which is not yet a list; [INIT_LIST_HEAD] turns the
    slot into an empty list. *)
Inductive list_head :=
  | LIST_ZEROED
  | LIST_HEAD (chain : list pvfs2_kernel_op_s).

Definition chain_of (h : list_head) : list pvfs2_kernel_op_s :=
  match h with LIST_ZEROED => [] | LIST_HEAD c => c end.

(** ** The log *)

Inductive lock_id :=
  | htable_ops_in_progress_lock
  | pvfs2_request_list_lock
  | op_lock (t : Z).

Inductive list_id :=
  | request_list
  | htable_bucket (i : Z).

(** Functions of other files that this one calls. *)
Inductive extern :=
  | debug_mask_to_string | debug_string_to_mask
  | bdi_init | bdi_destroy
  | op_cache_initialize | op_cache_finalize
  | dev_req_cache_initialize | dev_req_cache_finalize
  | pvfs2_inode_cache_initialize | pvfs2_inode_cache_finalize
  | kiocb_cache_initialize | kiocb_cache_finalize
  | pvfs2_dev_init | pvfs2_dev_cleanup
  | mutex_init_devreq | mutex_init_request
  | kcalloc | kfree
  | fsid_key_table_initialize | fsid_key_table_finalize
  | orangefs_prepare_debugfs_help_string
  | pvfs2_debugfs_init | pvfs2_kernel_debug_init | pvfs2_debugfs_cleanup
  | orangefs_sysfs_init | orangefs_sysfs_exit
  | register_filesystem | unregister_filesystem.

#[global] Instance lock_id_eq_dec : EqDecision lock_id.
Proof. solve_decision. Defined.
#[global] Instance list_id_eq_dec : EqDecision list_id.
Proof. solve_decision. Defined.
#[global] Instance extern_eq_dec : EqDecision extern.
Proof. solve_decision. Defined.

Inductive event :=
  | ev_call (f : extern) (ret : Z)      (* a call and the value it returned *)
  | ev_spin_lock (l : lock_id)
  | ev_spin_unlock (l : lock_id)
  | ev_walk (c : list_id)               (* control reaches the loop over a list *)
  | ev_list_del (t : Z)
  | ev_op_release (t : Z)
  | ev_wake_up (t : Z)
  | ev_set_op_state_purged (t : Z).     (* the record is marked [Purged] *)

#[global] Instance event_eq_dec : EqDecision event.
Proof. solve_decision. Defined.

(** ** Module-scope variables *)

(** [htable_ops_in_progress] is a pointer: [None] stands for a pointer with
    no storage behind it ([NULL] before [kcalloc] and when it fails, stale
    after [kfree]).  [unlinked_ops] are the records of the op cache that sit
    on neither list; [trace] is the log, oldest entry first. *)
Record module_state := mk_state {
  hash_table_size : Z;
  op_timeout_secs : Z;
  slot_timeout_secs : Z;
  module_parm_debug_mask : Z;
  gossip_debug_mask : Z;
  kernel_mask_set_mod_init : bool;
  htable_ops_in_progress : option (list list_head);
  pvfs2_request_list : list pvfs2_kernel_op_s;
  unlinked_ops : list pvfs2_kernel_op_s;
  trace : list event;
}.

Definition set_op_timeout_secs (v : Z) (s : module_state) :=
  mk_state (hash_table_size s) v (slot_timeout_secs s)
    (module_parm_debug_mask s) (gossip_debug_mask s)
    (kernel_mask_set_mod_init s) (htable_ops_in_progress s)
    (pvfs2_request_list s) (unlinked_ops s) (trace s).

Definition set_slot_timeout_secs (v : Z) (s : module_state) :=
  mk_state (hash_table_size s) (op_timeout_secs s) v
    (module_parm_debug_mask s) (gossip_debug_mask s)
    (kernel_mask_set_mod_init s) (htable_ops_in_progress s)
    (pvfs2_request_list s) (unlinked_ops s) (trace s).

Definition set_gossip_debug_mask (v : Z) (s : module_state) :=
  mk_state (hash_table_size s) (op_timeout_secs s) (slot_timeout_secs s)
    (module_parm_debug_mask s) v
    (kernel_mask_set_mod_init s) (htable_ops_in_progress s)
    (pvfs2_request_list s) (unlinked_ops s) (trace s).

Definition set_kernel_mask_set_mod_init (v : bool) (s : module_state) :=
  mk_state (hash_table_size s) (op_timeout_secs s) (slot_timeout_secs s)
    (module_parm_debug_mask s) (gossip_debug_mask s)
    v (htable_ops_in_progress s)
    (pvfs2_request_list s) (unlinked_ops s) (trace s).

Definition set_htable (v : option (list list_head)) (s : module_state) :=
  mk_state (hash_table_size s) (op_timeout_secs s) (slot_timeout_secs s)
    (module_parm_debug_mask s) (gossip_debug_mask s)
    (kernel_mask_set_mod_init s) v
    (pvfs2_request_list s) (unlinked_ops s) (trace s).

Definition set_request_list (v : list pvfs2_kernel_op_s) (s : module_state) :=
  mk_state (hash_table_size s) (op_timeout_secs s) (slot_timeout_secs s)
    (module_parm_debug_mask s) (gossip_debug_mask s)
    (kernel_mask_set_mod_init s) (htable_ops_in_progress s)
    v (unlinked_ops s) (trace s).

Definition set_unlinked_ops (v : list pvfs2_kernel_op_s) (s : module_state) :=
  mk_state (hash_table_size s) (op_timeout_secs s) (slot_timeout_secs s)
    (module_parm_debug_mask s) (gossip_debug_mask s)
    (kernel_mask_set_mod_init s) (htable_ops_in_progress s)
    (pvfs2_request_list s) v (trace s).

Definition log (es : list event) (s : module_state) :=
  mk_state (hash_table_size s) (op_timeout_secs s) (slot_timeout_secs s)
    (module_parm_debug_mask s) (gossip_debug_mask s)
    (kernel_mask_set_mod_init s) (htable_ops_in_progress s)
    (pvfs2_request_list s) (unlinked_ops s) (trace s ++ es).

(** ** The monad

    A program either finishes with a value and a state, or stops where it
    is: on a fault (a dereference the C program has no right to make) or
    because the loop budget of the model ran out. *)

Inductive stop := Fault | OutOfFuel.

Inductive result (A : Type) :=
  | Ok (a : A) (s : module_state)
  | Stop (k : stop) (s : module_state).
Arguments Ok {A} a s.
Arguments Stop {A} k s.

Definition M (A : Type) : Type := module_state -> result A.

#[global] Instance M_ret : MRet M := fun A a s => Ok a s.
#[global] Instance M_bind : MBind M := fun A B f m s =>
  match m s with
  | Ok a s' => f a s'
  | Stop k s' => Stop k s'
  end.

Definition gets {A} (f : module_state -> A) : M A := fun s => Ok (f s) s.
Definition modify (f : module_state -> module_state) : M unit :=
  fun s => Ok tt (f s).
Definition emit (e : event) : M unit := modify (log [e]).
Definition fault {A} : M A := fun s => Stop Fault s.
Definition out_of_fuel {A} : M A := fun s => Stop OutOfFuel s.

Definition final_state {A} (r : result A) : module_state :=
  match r with Ok _ s => s | Stop _ s => s end.

(** [while (cond) body], with a budget of iterations. *)
Fixpoint while (fuel : nat) (cond : M bool) (body : M unit) : M unit :=
  match fuel with
  | O => out_of_fuel
  | S fuel' =>
      b ← cond;
      if b : bool then body ;; while fuel' cond body else mret tt
  end.

(** [for (i = from; i < from + todo; i++) body(i)]: the bound is not
    written by any loop body of this file, so the number of iterations is
    known when the loop starts. *)
Fixpoint for_each (todo : nat) (i : Z) (body : Z -> M unit) : M unit :=
  match todo with
  | O => mret tt
  | S todo' => body i ;; for_each todo' (i + 1) body
  end.

(** ** Calls into the rest of the kernel *)

(** What the callees of this file answer: the value each [int] function
    returns, whether the allocator has memory for the table, and the mask
    that [debug_mask_to_string] followed by [debug_string_to_mask] leaves
    (the invalid bits removed). *)
Record kernel := mk_kernel {
  returns : extern -> Z;
  kcalloc_has_memory : bool;
  valid_debug_mask : Z -> Z;
}.

Section Program.

Variable K : kernel.

Definition call (f : extern) : M Z :=
  emit (ev_call f (returns K f)) ;; mret (returns K f).

Definition call_void (f : extern) : M unit := emit (ev_call f 0).

Definition spin_lock (l : lock_id) : M unit := emit (ev_spin_lock l).
Definition spin_unlock (l : lock_id) : M unit := emit (ev_spin_unlock l).

(** [kcalloc(n, sizeof(struct list_head), GFP_KERNEL)] into
    [htable_ops_in_progress]: the count travels as a [size_t], the product
    must not overflow, and the memory comes back zero-filled.  The answer is
    whether the pointer is non-[NULL]. *)
Definition kcalloc_htable (n : Z) : M bool :=
  let count := to_u64 n in
  if bool_decide (count <= SIZE_MAX / sizeof_list_head) && kcalloc_has_memory K
  then
    modify (set_htable (Some (replicate (Z.to_nat count) LIST_ZEROED))) ;;
    emit (ev_call kcalloc 1) ;;
    mret true
  else
    modify (set_htable None) ;;
    emit (ev_call kcalloc 0) ;;
    mret false.

Definition kfree_htable : M unit :=
  modify (set_htable None) ;; emit (ev_call kfree 0).

(** [INIT_LIST_HEAD(&htable_ops_in_progress[i])] *)
Definition INIT_LIST_HEAD (i : Z) : M unit :=
  t ← gets htable_ops_in_progress;
  match t with
  | Some tbl =>
      if bool_decide (0 <= i < Z.of_nat (length tbl))
      then modify (set_htable (Some (<[Z.to_nat i := LIST_HEAD []]> tbl)))
      else fault
  | None => fault
  end.

(** *** pvfs2_init *)

(** The labels at the end of [pvfs2_init]; each falls through to the next. *)
Definition out (ret : Z) : M Z := mret ret.
Definition err (ret : Z) : M Z := call_void bdi_destroy ;; out ret.
Definition cleanup_op (ret : Z) : M Z :=
  call_void op_cache_finalize ;; err ret.
Definition cleanup_req (ret : Z) : M Z :=
  call_void dev_req_cache_finalize ;; cleanup_op ret.
Definition cleanup_inode (ret : Z) : M Z :=
  call_void pvfs2_inode_cache_finalize ;; cleanup_req ret.
Definition cleanup_kiocb (ret : Z) : M Z :=
  call_void kiocb_cache_finalize ;; cleanup_inode ret.
Definition cleanup_device (ret : Z) : M Z :=
  call_void pvfs2_dev_cleanup ;; cleanup_kiocb ret.
Definition cleanup_progress_table (ret : Z) : M Z :=
  kfree_htable ;; cleanup_device ret.

(** The part of [pvfs2_init] from the table allocation on. *)
Definition pvfs2_init_table : M Z :=
  n ← gets hash_table_size;
  allocated ← kcalloc_htable n;
  if negb allocated then cleanup_device (- ENOMEM) else
  (* __u32 i; i < hash_table_size compares as unsigned *)
  for_each (Z.to_nat (to_u32 n)) 0 INIT_LIST_HEAD ;;
  ret ← call fsid_key_table_initialize;
  if bool_decide (ret < 0) then cleanup_progress_table ret else
  ret ← call orangefs_prepare_debugfs_help_string;
  if bool_decide (ret ≠ 0) then out ret else
  call_void pvfs2_debugfs_init ;;
  call_void pvfs2_kernel_debug_init ;;
  call_void orangefs_sysfs_init ;;
  ret ← call register_filesystem;
  if bool_decide (ret = 0) then mret 0 else
  call_void pvfs2_debugfs_cleanup ;;
  call_void orangefs_sysfs_exit ;;
  call_void fsid_key_table_finalize ;;
  cleanup_progress_table ret.

(** The part of [pvfs2_init] from the caches up to the table. *)
Definition pvfs2_init_caches : M Z :=
  ret ← call op_cache_initialize;
  if bool_decide (ret < 0) then err ret else
  ret ← call dev_req_cache_initialize;
  if bool_decide (ret < 0) then cleanup_op ret else
  ret ← call pvfs2_inode_cache_initialize;
  if bool_decide (ret < 0) then cleanup_req ret else
  ret ← call kiocb_cache_initialize;
  if bool_decide (ret < 0) then cleanup_inode ret else
  ret ← call pvfs2_dev_init;
  if bool_decide (ret < 0) then cleanup_kiocb ret else
  call_void mutex_init_devreq ;;
  call_void mutex_init_request ;;
  pvfs2_init_table.

Definition pvfs2_init : M Z :=
  m ← gets module_parm_debug_mask;
  modify (set_gossip_debug_mask (to_u64 m)) ;;
  call_void debug_mask_to_string ;;
  call_void debug_string_to_mask ;;
  modify (fun s => set_gossip_debug_mask
                     (valid_debug_mask K (gossip_debug_mask s)) s) ;;
  g ← gets gossip_debug_mask;
  (if bool_decide (g ≠ 0)
   then modify (set_kernel_mask_set_mod_init true) else mret tt) ;;
  ret ← call bdi_init;
  if bool_decide (ret ≠ 0) then mret ret else
  t ← gets op_timeout_secs;
  (if bool_decide (t < 0) then modify (set_op_timeout_secs 0) else mret tt) ;;
  t ← gets slot_timeout_secs;
  (if bool_decide (t < 0) then modify (set_slot_timeout_secs 0) else mret tt) ;;
  pvfs2_init_caches.

(** *** Access to the hash table *)

(** The chain hanging off [htable_ops_in_progress[i]].  Reading it through
    a pointer without storage, outside the array, or from a slot that is
    still zero-filled is a fault. *)
Definition htable_chain (i : Z) : M (list pvfs2_kernel_op_s) :=
  t ← gets htable_ops_in_progress;
  match t with
  | Some tbl =>
      if bool_decide (0 <= i) then
        match tbl !! Z.to_nat i with
        | Some (LIST_HEAD c) => mret c
        | _ => fault
        end
      else fault
  | None => fault
  end.

Definition set_htable_chain (i : Z) (c : list pvfs2_kernel_op_s) : M unit :=
  t ← gets htable_ops_in_progress;
  match t with
  | Some tbl => modify (set_htable (Some (<[Z.to_nat i := LIST_HEAD c]> tbl)))
  | None => fault
  end.

(** A record on a chain is addressed by its bucket and its position. *)
Definition op_at (i : Z) (j : nat) : M pvfs2_kernel_op_s :=
  c ← htable_chain i;
  match c !! j with
  | Some op => mret op
  | None => fault
  end.

Definition update_op (i : Z) (j : nat)
    (f : pvfs2_kernel_op_s -> pvfs2_kernel_op_s) : M unit :=
  c ← htable_chain i;
  match c !! j with
  | Some op => set_htable_chain i (<[j := f op]> c)
  | None => fault
  end.

(** Modelled from the spec: [set_op_state_purged(op)], a macro of
    pvfs2-kernel.h that is not part of the sources at hand; per section 4.6
    it marks the record [Purged].  The marking goes into the log, so that
    the log tells where it falls between the other steps. *)
Definition set_op_state_purged (i : Z) (j : nat) : M unit :=
  op ← op_at i j;
  emit (ev_set_op_state_purged (tag op)) ;;
  update_op i j (with_op_state Purged).

Definition wake_up_interruptible (i : Z) (j : nat) : M unit :=
  op ← op_at i j;
  emit (ev_wake_up (tag op)) ;;
  update_op i j woken.

(** Modelled from the spec: [op_release(op)], defined in another file; per
    section 4.1 it gives the record back to the cache.  It is handed the
    record only, and the one caller that wants the record off its list
    unlinks it with [list_del] first; what is left in the record's memory is
    not specified and stays as it was. *)
Definition op_release (op : pvfs2_kernel_op_s) : M unit :=
  emit (ev_op_release (tag op)).

(** [list_for_each_entry_safe(op, next, head, list) body]: one turn of the
    body per entry, head to tail.  No body in this file relinks an entry,
    so the chain read when the walk starts is the chain that is walked. *)
Fixpoint list_for_each_entry_safe (rest : list pvfs2_kernel_op_s) (j : nat)
    (body : nat -> M unit) : M unit :=
  match rest with
  | [] => mret tt
  | _ :: next => body j ;; list_for_each_entry_safe next (S j) body
  end.

(** *** purge_inprogress_ops *)

Definition purge_entry (i : Z) (j : nat) : M unit :=
  op ← op_at i j;
  spin_lock (op_lock (tag op)) ;;
  set_op_state_purged i j ;;
  spin_unlock (op_lock (tag op)) ;;
  wake_up_interruptible i j.

Definition purge_bucket (i : Z) : M unit :=
  emit (ev_walk (htable_bucket i)) ;;
  c ← htable_chain i;
  list_for_each_entry_safe c 0 (purge_entry i).

Definition purge_inprogress_ops : M unit :=
  n ← gets hash_table_size;
  for_each (Z.to_nat n) 0 purge_bucket.

(** *** pvfs2_exit *)

Definition request_list_nonempty : M bool :=
  gets (fun s => negb (bool_decide (pvfs2_request_list s = []))).

Definition release_request_list_head : M unit :=
  q ← gets pvfs2_request_list;
  match q with
  | cur_op :: rest =>
      modify (set_request_list rest) ;;       (* list_del(&cur_op->list) *)
      emit (ev_list_del (tag cur_op)) ;;
      op_release cur_op
  | [] => fault
  end.

(** "clear out all pending upcall op requests" *)
Definition drain_request_list (fuel : nat) : M unit :=
  spin_lock pvfs2_request_list_lock ;;
  emit (ev_walk request_list) ;;
  while fuel request_list_nonempty release_request_list_head ;;
  spin_unlock pvfs2_request_list_lock.

Definition bucket_nonempty (i : Z) : M bool :=
  c ← htable_chain i;
  mret (negb (bool_decide (c = []))).

Definition release_bucket_head (i : Z) : M unit :=
  c ← htable_chain i;
  match c with
  | cur_op :: _ => op_release cur_op
  | [] => fault
  end.

Definition drain_bucket (fuel : nat) (i : Z) : M unit :=
  emit (ev_walk (htable_bucket i)) ;;
  while fuel (bucket_nonempty i) (release_bucket_head i).

Definition drain_htable (fuel : nat) : M unit :=
  n ← gets hash_table_size;
  for_each (Z.to_nat n) 0 (drain_bucket fuel).

Definition pvfs2_exit (fuel : nat) : M unit :=
  call_void unregister_filesystem ;;
  call_void pvfs2_debugfs_cleanup ;;
  call_void orangefs_sysfs_exit ;;
  call_void fsid_key_table_finalize ;;
  call_void pvfs2_dev_cleanup ;;
  drain_request_list fuel ;;
  drain_htable fuel ;;
  call_void kiocb_cache_finalize ;;
  call_void pvfs2_inode_cache_finalize ;;
  call_void dev_req_cache_finalize ;;
  call_void op_cache_finalize ;;
  kfree_htable ;;
  call_void bdi_destroy.

End Program.

(** ** The service agent's completion *)

(** Modelled from the spec: [complete(tag, response)], whose code sits with
    the device front end and is not part of the sources at hand.  Section
    4.3: it looks the tag up in bucket [tag mod bucket_count]; if the tag
    is found and the record is still [Claimed] it attaches the response,
    moves the record to [Serviced], removes it from the table and wakes the
    waiter; otherwise it answers false and does nothing. *)
Definition complete (t : Z) (r : blob) : M bool :=
  n ← gets hash_table_size;
  tbl ← gets htable_ops_in_progress;
  match tbl with
  | None => mret false
  | Some tb =>
      match tb !! Z.to_nat (t mod n) with
      | Some (LIST_HEAD c) =>
          match list_find (fun op => tag op = t) c with
          | Some (j, op) =>
              if bool_decide (op_state op = Claimed) then
                modify (set_htable
                  (Some (<[Z.to_nat (t mod n) := LIST_HEAD (delete j c)]> tb))) ;;
                modify (fun s => set_unlinked_ops
                  (woken (with_op_state Serviced (with_downcall r op))
                     :: unlinked_ops s) s) ;;
                emit (ev_wake_up t) ;;
                mret true
              else mret false
          | None => mret false
          end
      | _ => mret false
      end
  end.

(** ** Vocabulary of the statements *)

(** The values of the variables when the module is loaded without
    parameters; the two default timeouts are macros of pvfs2-kernel.h. *)
Definition module_defaults
    (PVFS2_DEFAULT_OP_TIMEOUT_SECS PVFS2_DEFAULT_SLOT_TIMEOUT_SECS : Z) :=
  mk_state 509 PVFS2_DEFAULT_OP_TIMEOUT_SECS PVFS2_DEFAULT_SLOT_TIMEOUT_SECS
    0 0 false None [] [] [].

(** The records on the chains of the table, bucket by bucket. *)
Definition table_ops (s : module_state) : list pvfs2_kernel_op_s :=
  match htable_ops_in_progress s with
  | Some tbl => concat (chain_of <$> tbl)
  | None => []
  end.

Definition all_ops (s : module_state) : list pvfs2_kernel_op_s :=
  table_ops s ++ pvfs2_request_list s ++ unlinked_ops s.

(** The table as [pvfs2_init] leaves it and the sweeps expect it: one
    initialised list head per bucket, [hash_table_size] of them. *)
Definition htable_is (chains : list (list pvfs2_kernel_op_s))
    (s : module_state) : Prop :=
  htable_ops_in_progress s = Some (LIST_HEAD <$> chains) /\
  hash_table_size s = Z.of_nat (length chains).

(** Section 3 of the specification: a tag is present in the In-Progress
    Table if and only if the record's state is [Claimed]. *)
Definition claimed_iff_in_table (s : module_state) : Prop :=
  Forall (fun op => tag op ∈ tag <$> table_ops s <-> op_state op = Claimed)
         (all_ops s).

Definition claimed_only_in_table (s : module_state) : Prop :=
  Forall (fun op => op_state op = Claimed -> tag op ∈ tag <$> table_ops s)
         (all_ops s).

(** What the purge sweep does to one record, and what it logs. *)
Definition purged (op : pvfs2_kernel_op_s) : pvfs2_kernel_op_s :=
  woken (with_op_state Purged op).

Definition purged_chains (chains : list (list pvfs2_kernel_op_s))
    : list (list pvfs2_kernel_op_s) :=
  (fun c : list pvfs2_kernel_op_s => purged <$> c) <$> chains.

Definition purge_log_op (op : pvfs2_kernel_op_s) : list event :=
  [ev_spin_lock (op_lock (tag op)); ev_set_op_state_purged (tag op);
   ev_spin_unlock (op_lock (tag op)); ev_wake_up (tag op)].

Fixpoint purge_log (i : Z) (chains : list (list pvfs2_kernel_op_s))
    : list event :=
  match chains with
  | [] => []
  | c :: rest =>
      ev_walk (htable_bucket i) :: concat (purge_log_op <$> c)
        ++ purge_log (i + 1) rest
  end.

Definition release_log (op : pvfs2_kernel_op_s) : list event :=
  [ev_list_del (tag op); ev_op_release (tag op)].

(** Readings of a log. *)
Definition walks (es : list event) : list list_id :=
  omap (fun e => match e with ev_walk c => Some c | _ => None end) es.

Definition locks_taken (es : list event) : list lock_id :=
  omap (fun e => match e with ev_spin_lock l => Some l | _ => None end) es.


(** The locks held after a log, given those held before it. *)
Fixpoint held_after (held : list lock_id) (es : list event) : list lock_id :=
  match es with
  | [] => held
  | ev_spin_lock l :: es' => held_after (l :: held) es'
  | ev_spin_unlock l :: es' =>
      held_after (filter (fun l' => l' ≠ l) held) es'
  | _ :: es' => held_after held es'
  end.

(** The largest number of locks held at any point of a log. *)
Fixpoint most_held (held : list lock_id) (es : list event) : nat :=
  match es with
  | [] => length held
  | e :: es' => Nat.max (length held) (most_held (held_after held [e]) es')
  end.

Definition wakeups (es : list event) : list Z :=
  omap (fun e => match e with ev_wake_up t => Some t | _ => None end) es.




(** A program keeps a relation when every run, finished or stopped, ends
    in a state related to the one it started from. *)
Definition keeps {A} (R : relation module_state) (m : M A) : Prop :=
  forall s, R s (final_state (m s)).

Definition same_size : relation module_state :=
  fun s s' => hash_table_size s' = hash_table_size s.

Definition same_buckets : relation module_state :=
  fun s s' =>
    hash_table_size s' = hash_table_size s /\
    length <$> htable_ops_in_progress s' = length <$> htable_ops_in_progress s.

Definition same_masks : relation module_state :=
  fun s s' =>
    gossip_debug_mask s' = gossip_debug_mask s /\
    kernel_mask_set_mod_init s' = kernel_mask_set_mod_init s.

Definition same_timeouts : relation module_state :=
  fun s s' =>
    op_timeout_secs s' = op_timeout_secs s /\
    slot_timeout_secs s' = slot_timeout_secs s.

(** What teardown may do to a state: log events that wake nobody and take
    no lock but [pvfs2_request_list_lock], and leave the table as it is or
    free it. *)
Definition torn_down_quietly : relation module_state :=
  fun s s' =>
    exists evs,
      trace s' = trace s ++ evs /\
      wakeups evs = [] /\
      Forall (fun l => l = pvfs2_request_list_lock) (locks_taken evs) /\
      (htable_ops_in_progress s' = htable_ops_in_progress s \/
       htable_ops_in_progress s' = None) /\
      unlinked_ops s' = unlinked_ops s.

(** *** What initialisation has acquired *)

Inductive resource :=
  | res_bdi | res_op_cache | res_dev_req_cache | res_inode_cache
  | res_kiocb_cache | res_device | res_htable | res_fsid_table
  | res_debugfs | res_sysfs | res_filesystem.

#[global] Instance resource_eq_dec : EqDecision resource.
Proof. solve_decision. Defined.

(** A call acquires its resource when it succeeds by the test that
    [pvfs2_init] applies to its return value. *)
Definition acquired_by (e : event) : option resource :=
  match e with
  | ev_call bdi_init r => if bool_decide (r = 0) then Some res_bdi else None
  | ev_call op_cache_initialize r =>
      if bool_decide (r < 0) then None else Some res_op_cache
  | ev_call dev_req_cache_initialize r =>
      if bool_decide (r < 0) then None else Some res_dev_req_cache
  | ev_call pvfs2_inode_cache_initialize r =>
      if bool_decide (r < 0) then None else Some res_inode_cache
  | ev_call kiocb_cache_initialize r =>
      if bool_decide (r < 0) then None else Some res_kiocb_cache
  | ev_call pvfs2_dev_init r =>
      if bool_decide (r < 0) then None else Some res_device
  | ev_call kcalloc r => if bool_decide (r = 0) then None else Some res_htable
  | ev_call fsid_key_table_initialize r =>
      if bool_decide (r < 0) then None else Some res_fsid_table
  | ev_call pvfs2_debugfs_init _ => Some res_debugfs
  | ev_call orangefs_sysfs_init _ => Some res_sysfs
  | ev_call register_filesystem r =>
      if bool_decide (r = 0) then Some res_filesystem else None
  | _ => None
  end.

Definition released_by (e : event) : option resource :=
  match e with
  | ev_call bdi_destroy _ => Some res_bdi
  | ev_call op_cache_finalize _ => Some res_op_cache
  | ev_call dev_req_cache_finalize _ => Some res_dev_req_cache
  | ev_call pvfs2_inode_cache_finalize _ => Some res_inode_cache
  | ev_call kiocb_cache_finalize _ => Some res_kiocb_cache
  | ev_call pvfs2_dev_cleanup _ => Some res_device
  | ev_call kfree _ => Some res_htable
  | ev_call fsid_key_table_finalize _ => Some res_fsid_table
  | ev_call pvfs2_debugfs_cleanup _ => Some res_debugfs
  | ev_call orangefs_sysfs_exit _ => Some res_sysfs
  | ev_call unregister_filesystem _ => Some res_filesystem
  | _ => None
  end.

(** The resources held after one more event, and after a log; oldest
    first. *)
Definition account (held : list resource) (e : event) : list resource :=
  let held1 :=
    match acquired_by e with Some r => held ++ [r] | None => held end in
  match released_by e with
  | Some r => filter (fun r' => r' ≠ r) held1
  | None => held1
  end.

Fixpoint outstanding (held : list resource) (es : list event)
    : list resource :=
  match es with
  | [] => held
  | e :: es' => outstanding (account held e) es'
  end.

(** Everything a successful [pvfs2_init] holds, in the order acquired. *)
Definition all_resources : list resource :=
  [res_bdi; res_op_cache; res_dev_req_cache; res_inode_cache;
   res_kiocb_cache; res_device; res_htable; res_fsid_table;
   res_debugfs; res_sysfs; res_filesystem].

(** The callees whose answer [pvfs2_init] tests. *)
Definition init_steps : list extern :=
  [bdi_init; op_cache_initialize; dev_req_cache_initialize;
   pvfs2_inode_cache_initialize; kiocb_cache_initialize; pvfs2_dev_init;
   fsid_key_table_initialize; orangefs_prepare_debugfs_help_string;
   register_filesystem].

(** The success tests of [pvfs2_init], in the order it applies them. *)
Definition kcalloc_succeeds (K : kernel) (n : Z) : Prop :=
  to_u64 n <= SIZE_MAX / sizeof_list_head /\ kcalloc_has_memory K = true.

Definition caches_and_device_up (K : kernel) : Prop :=
  returns K bdi_init = 0 /\
  0 <= returns K op_cache_initialize /\
  0 <= returns K dev_req_cache_initialize /\
  0 <= returns K pvfs2_inode_cache_initialize /\
  0 <= returns K kiocb_cache_initialize /\
  0 <= returns K pvfs2_dev_init.

Definition init_succeeds (K : kernel) (n : Z) : Prop :=
  caches_and_device_up K /\
  kcalloc_succeeds K n /\
  0 <= returns K fsid_key_table_initialize /\
  returns K orangefs_prepare_debugfs_help_string = 0 /\
  returns K register_filesystem = 0.

(** The failure singled out below: everything up to the key table is up
    and [orangefs_prepare_debugfs_help_string] answers non-zero. *)
Definition help_string_fails (K : kernel) (n : Z) : Prop :=
  caches_and_device_up K /\
  kcalloc_succeeds K n /\
  0 <= returns K fsid_key_table_initialize /\
  returns K orangefs_prepare_debugfs_help_string <> 0.

(** *** Sample inputs *)

(** A kernel in which every call succeeds, and variants in which one call
    answers [r] instead. *)
Definition kernel_ok : kernel := mk_kernel (fun _ => 0) true (fun m => m).

Definition kernel_failing (f : extern) (r : Z) : kernel :=
  mk_kernel (fun g => if bool_decide (g = f) then r else 0) true (fun m => m).

Definition kernel_no_memory : kernel :=
  mk_kernel (fun _ => 0) false (fun m => m).

Definition sample_load : module_state :=
  mk_state 3 (-5) (-1) 0 0 false None [] [] [].

Definition op_7 := mk_op 7 1 None Claimed 0.
Definition op_10 := mk_op 10 1 None Claimed 0.
Definition op_11 := mk_op 11 2 None Queued 0.

Definition sample_busy : module_state :=
  mk_state 3 0 0 0 0 false
    (Some [LIST_HEAD []; LIST_HEAD [op_7; op_10]; LIST_HEAD []])
    [op_11] [] [].

Definition sample_idle : module_state :=
  mk_state 3 0 0 0 0 false
    (Some [LIST_HEAD []; LIST_HEAD []; LIST_HEAD []])
    [op_11] [] [].

(** * fb_s1d15g00.c: the S1D15G00 display driver

    The driver talks to the rest of fbtft through callbacks of [par]:
    [write_reg] (a macro over [fbtftops.write_register]), [fbtftops.reset]
    and [fbtftops.write].  Register writes, resets and delays are returned
    as a log; [fbtftops.write] is a function of the number of the call and
    the words handed to it. *)

Module fb_s1d15g00.

Definition WIDTH : Z := 132.
Definition HEIGHT : Z := 132.

Definition EPSON_DISON : Z := 0xaf.
Definition EPSON_DISINV : Z := 0xa7.
Definition EPSON_COMSCN : Z := 0xbb.
Definition EPSON_DISCTL : Z := 0xca.
Definition EPSON_SLPOUT : Z := 0x94.
Definition EPSON_PASET : Z := 0x75.
Definition EPSON_CASET : Z := 0x15.
Definition EPSON_DATCTL : Z := 0xbc.
Definition EPSON_RAMWR : Z := 0x5c.
Definition EPSON_OSCON : Z := 0xd1.
Definition EPSON_PWRCTR : Z := 0x20.
Definition EPSON_VOLCTR : Z := 0x81.

Definition to_u16 (z : Z) : Z := z mod 2 ^ 16.

Definition INT_MAX : Z := 2 ^ 31 - 1.

(** [i++] and [j++] on an [int]: the overflow is undefined. *)
Definition incr (z : Z) : option Z :=
  if bool_decide (z < INT_MAX) then Some (z + 1) else None.

(** 16 bit to 12 bit conversion helper: the macros, on a [u16] promoted
    to [int].  All operands are non-negative, where C's [/] is [÷]. *)
Definition RGB565_R4 (c : Z) : Z := (Z.shiftr (Z.land c 0xF800) 11 * 15) ÷ 31.
Definition RGB565_G4 (c : Z) : Z := (Z.shiftr (Z.land c 0x07E0) 5 * 15) ÷ 63.
Definition RGB565_B4 (c : Z) : Z := (Z.land c 0x001F * 15) ÷ 31.

Inductive fb_event :=
  | fb_reset
  | fb_write_reg (args : list Z)
  | fb_mdelay (msecs : Z).

#[global] Instance fb_event_eq_dec : EqDecision fb_event.
Proof. solve_decision. Defined.

(** [init_display]: the value returned and the log.  [alpha] is the
    module parameter, a [short]. *)
Definition init_display (alpha : Z) : Z * list fb_event :=
  (0,
   [fb_reset;
    fb_write_reg [EPSON_DISCTL; 0x00; 0x20; 0x0a];
    fb_write_reg [EPSON_COMSCN; 0x01];
    fb_write_reg [EPSON_OSCON];
    fb_write_reg [EPSON_SLPOUT];
    fb_write_reg [EPSON_VOLCTR; Z.land alpha 0x3F; 0x03];
    fb_write_reg [EPSON_PWRCTR; 0x0f];
    fb_write_reg [EPSON_DISINV];
    fb_write_reg [EPSON_DATCTL; 0x00; 0x00; 0x02];
    fb_mdelay 100;
    fb_write_reg [EPSON_DISON];
    fb_mdelay 10]).

Definition set_addr_win (xs ys xe ye : Z) : list fb_event :=
  [fb_write_reg [EPSON_CASET; Z.land xs 0xff; Z.land xe 0xff];
   fb_write_reg [EPSON_PASET; Z.land ys 0xff; Z.land ye 0xff];
   fb_write_reg [EPSON_RAMWR]].

Definition set_var (bgr : Z) : Z * list fb_event :=
  (0, [fb_write_reg [EPSON_DATCTL; 0x00; bgr; 0x02]]).

(** *** write_vmem16_bus9 *)

Inductive outcome (A : Type) :=
  | Done (a : A)
  | Halt (k : stop).
Arguments Done {A} a.
Arguments Halt {A} k.

(** The loop variables [i] and [j] with the transmit buffer.  Both are
    [int]s that start at 0 and are only ever incremented, so they stay in
    0 .. [INT_MAX] and their conversion to [size_t] in the comparisons with
    [len / 2] and [buf_len / 2] leaves them as they are. *)
Record cursor := mk_cursor {
  cur_i : Z;
  cur_j : Z;
  txbuf16 : list Z;
}.

(** [txbuf16[i] = v] and [txbuf16[i] |= v] on an array of [u16]; an index
    outside the array has no answer. *)
Definition store (i v : Z) (tx : list Z) : option (list Z) :=
  if bool_decide (0 <= i < Z.of_nat (length tx))
  then Some (<[Z.to_nat i := to_u16 v]> tx)
  else None.

Definition or_store (i v : Z) (tx : list Z) : option (list Z) :=
  if bool_decide (0 <= i)
  then old ← tx !! Z.to_nat i; store i (Z.lor old v) tx
  else None.

Section write_vmem.

(** [par->fbtftops.write]: what the call number [k] answers for the words
    [data]; [vmem16] is the video memory from [offset] on; [txbuf_len] is
    [par->txbuf.len]. *)
Variable write : nat -> list Z -> Z.
Variable vmem16 : list Z.
Variable txbuf_len : Z.
Variable len : Z.

Definition buf_len : Z := txbuf_len - txbuf_len mod 24.

Definition vmem_at (j : Z) : option Z :=
  if bool_decide (0 <= j) then vmem16 !! Z.to_nat j else None.

(** One turn of the inner loop body; the flag tells whether it left the
    loop by [break]. *)
Definition convert_pixels (c : cursor) : option (cursor * bool) :=
  let i := cur_i c in
  let j := cur_j c in
  (* convert odd pixel to 12 bit *)
  px ← vmem_at j;
  tx ← store i 0x0100 (txbuf16 c);
  tx ← or_store i (Z.shiftl (RGB565_R4 px) 4) tx;
  tx ← or_store i (RGB565_G4 px) tx;
  i ← incr i;
  tx ← store i 0x0100 tx;
  tx ← or_store i (Z.shiftl (RGB565_B4 px) 4) tx;
  j ← incr j;
  if bool_decide (j >= len / 2) then
    i ← incr i;
    Some (mk_cursor i j tx, true)
  else
    (* convert even pixel to 12 bit *)
    px ← vmem_at j;
    tx ← or_store i (RGB565_R4 px) tx;
    i ← incr i;
    tx ← store i 0x0100 tx;
    tx ← or_store i (Z.shiftl (RGB565_G4 px) 4) tx;
    tx ← or_store i (RGB565_B4 px) tx;
    i ← incr i;
    j ← incr j;
    Some (mk_cursor i j tx, bool_decide (j >= len / 2)).

(** [while (i < buf_len / 2) { ... }] *)
Fixpoint convert_chunk (fuel : nat) (c : cursor) : outcome cursor :=
  if bool_decide (cur_i c < buf_len / 2) then
    match fuel with
    | O => Halt OutOfFuel
    | S fuel' =>
        match convert_pixels c with
        | None => Halt Fault
        | Some (c', true) => Done c'
        | Some (c', false) => convert_chunk fuel' c'
        end
    end
  else Done c.

(** "fill up with NOP": [while (i % 4) { txbuf16[i] = 0x0000; i++; }] *)
Fixpoint fill_nop (fuel : nat) (c : cursor) : outcome cursor :=
  if bool_decide (Z.rem (cur_i c) 4 ≠ 0) then
    match fuel with
    | O => Halt OutOfFuel
    | S fuel' =>
        match (tx ← store (cur_i c) 0x0000 (txbuf16 c);
               i ← incr (cur_i c);
               Some (mk_cursor i (cur_j c) tx)) with
        | None => Halt Fault
        | Some c' => fill_nop fuel' c'
        end
    end
  else Done c.

(** The outer loop.  [calls] counts the calls of [write] made so far and
    [sent] collects what they were handed: [i * 2] bytes, the first [i]
    words of the buffer, where [i * 2] is a product of [int]s.  The answer
    is the value returned and [sent]. *)
Fixpoint send_chunks (fuel : nat) (calls : nat) (j : Z) (tx : list Z)
    (sent : list (list Z)) (ret : Z) : outcome (Z * list (list Z)) :=
  if bool_decide (j < len / 2) then
    match fuel with
    | O => Halt OutOfFuel
    | S fuel' =>
        match convert_chunk fuel (mk_cursor 0 j tx) with
        | Halt k => Halt k
        | Done c =>
            match (if bool_decide (cur_j c >= len / 2)
                   then fill_nop fuel c else Done c) with
            | Halt k => Halt k
            | Done c =>
                if bool_decide (cur_i c * 2 <= INT_MAX) then
                  let data := take (Z.to_nat (cur_i c)) (txbuf16 c) in
                  let ret := write calls data in
                  if bool_decide (ret < 0) then Done (ret, sent ++ [data])
                  else send_chunks fuel' (S calls) (cur_j c) (txbuf16 c)
                         (sent ++ [data]) ret
                else Halt Fault
            end
        end
    end
  else Done (ret, sent).

(** [txbuf] is [par->txbuf.buf] seen as an array of [u16], [None] for a
    [NULL] pointer. *)
Definition write_vmem16_bus9 (fuel : nat) (txbuf : option (list Z))
    : outcome (Z * list (list Z)) :=
  match txbuf with
  | None => Done (-1, [])
  | Some tx => send_chunks fuel 0 0 tx [] 0
  end.

End write_vmem.

(** *** What the bus should carry *)

Definition word_rg (p : Z) : Z :=
  Z.lor (Z.lor 0x0100 (Z.shiftl (RGB565_R4 p) 4)) (RGB565_G4 p).
Definition word_b (p : Z) : Z := Z.lor 0x0100 (Z.shiftl (RGB565_B4 p) 4).
Definition word_br (p q : Z) : Z := Z.lor (word_b p) (RGB565_R4 q).
Definition word_gb (q : Z) : Z :=
  Z.lor (Z.lor 0x0100 (Z.shiftl (RGB565_G4 q) 4)) (RGB565_B4 q).

(** Two pixels in three words, a last odd pixel in two. *)
Fixpoint pack (pixels : list Z) : list Z :=
  match pixels with
  | [] => []
  | p :: rest =>
      match rest with
      | [] => [word_rg p; word_b p]
      | q :: rest' => word_rg p :: word_br p q :: word_gb q :: pack rest'
      end
  end.

End fb_s1d15g00.

(** * userfaultfd.c: helpers of the stress test

    The helpers that are plain computations: the comparison of two
    buffers, the place of the per-page counter, and the checks [main] makes
    before it starts the test.  [unsigned long] is that of the 64-bit
    targets; addresses are numbers. *)

Module userfaultfd.

Definition to_ulong (z : Z) : Z := z mod 2 ^ 64.

Definition LONG_MIN : Z := - 2 ^ 63.
Definition LONG_MAX : Z := 2 ^ 63 - 1.

(** [sizeof(unsigned long long)] *)
Definition sizeof_ull : Z := 8.

(** [my_bcmp]: [for (i = 0; i < n; i++)] over the [count] indices left,
    from [i] on.  A read outside one of the arrays has no answer. *)
Fixpoint my_bcmp_from (str1 str2 : list Z) (i count : nat) : option Z :=
  match count with
  | O => Some 0
  | S count' =>
      a ← str1 !! i;
      b ← str2 !! i;
      if bool_decide (a ≠ b) then Some 1
      else my_bcmp_from str1 str2 (S i) count'
  end.

Definition my_bcmp (str1 str2 : list Z) (n : Z) : option Z :=
  my_bcmp_from str1 str2 0 (Z.to_nat n).

Section layout.

(** [sizeof(pthread_mutex_t)] and the global [page_size]. *)
Variable sizeof_mutex : Z.
Variable page_size : Z.

(** pthread_mutex_t starts at page offset 0 *)
Definition area_mutex (area nr : Z) : Z :=
  to_ulong (area + nr * page_size).

(** count is placed in the page after pthread_mutex_t naturally aligned *)
Definition area_count (area nr : Z) : Z :=
  Z.land
    (to_ulong (area + nr * page_size + sizeof_mutex + sizeof_ull - 1))
    (to_ulong (Z.lnot (to_ulong (sizeof_ull - 1)))).

End layout.

(** What [main] leaves with: [exit(code)], or the call of
    [userfaultfd_stress] with the globals it has set. *)
Record globals := mk_globals {
  nr_cpus : Z;
  nr_pages : Z;
  nr_pages_per_cpu : Z;
  page_size : Z;
  bounces : Z;
}.

Inductive main_result :=
  | Exit (code : Z)
  | Stress (g : globals).

(** [main].  [mib] is [atol(argv[1])] and [nbounces] is [atoi(argv[2])];
    [nproc] and [pagesz] are what [sysconf] answers.  The product
    [atol(argv[1]) * 1024*1024] is computed in [long], where an overflow is
    undefined, and a division by 0 is undefined: these have no answer. *)
Definition main (sizeof_mutex : Z) (argc mib nbounces nproc pagesz : Z)
    : option main_result :=
  if bool_decide (argc < 3) then Some (Exit 1)
  else
    let nr_cpus := to_ulong nproc in
    let page_size := to_ulong pagesz in
    if bool_decide
         (to_ulong (area_count sizeof_mutex page_size 0 0 + sizeof_ull)
          > page_size)
    then Some (Exit 2)
    else
      let bytes := mib * 1024 * 1024 in
      if bool_decide (LONG_MIN <= bytes <= LONG_MAX) then
        if bool_decide (page_size = 0 \/ nr_cpus = 0) then None
        else
          let nr_pages_per_cpu := to_ulong bytes / page_size / nr_cpus in
          if bool_decide (nr_pages_per_cpu = 0) then Some (Exit 1)
          else
            let bounces := nbounces in
            if bool_decide (bounces <= 0) then Some (Exit 1)
            else
              let nr_pages := to_ulong (nr_pages_per_cpu * nr_cpus) in
              Some (Stress (mk_globals nr_cpus nr_pages nr_pages_per_cpu
                              page_size bounces))
      else None.

End userfaultfd.


(** ** Reasoning about runs *)

Lemma bind_Ok {A B} (m : M A) (f : A -> M B) s a s' :
  m s = Ok a s' -> (m ≫= f) s = f a s'.
Proof. intros H. unfold mbind, M_bind. now rewrite H. Qed.

Lemma bind_Stop {A B} (m : M A) (f : A -> M B) s k s' :
  m s = Stop k s' -> (m ≫= f) s = Stop k s'.
Proof. intros H. unfold mbind, M_bind. now rewrite H. Qed.

Lemma bind_Ok_or_Stop {A B} (m : M A) (f : A -> M B) s r :
  m s = r ->
  (m ≫= f) s = match r with Ok a s' => f a s' | Stop k s' => Stop k s' end.
Proof. intros <-. reflexivity. Qed.

Lemma log_log es1 es2 s : log es2 (log es1 s) = log (es1 ++ es2) s.
Proof. unfold log; simpl. now rewrite <- app_assoc. Qed.

Lemma log_nil s : log [] s = s.
Proof. destruct s; unfold log; simpl. now rewrite app_nil_r. Qed.

(** Unfolds the straight-line part of a program applied to a state. *)
Ltac run :=
  cbv beta iota delta
    [mbind M_bind mret M_ret gets modify emit fault out_of_fuel
     call call_void spin_lock spin_unlock kfree_htable op_release
     out err cleanup_op cleanup_req cleanup_inode cleanup_kiocb
     cleanup_device cleanup_progress_table];
  cbn [hash_table_size op_timeout_secs slot_timeout_secs
       module_parm_debug_mask gossip_debug_mask kernel_mask_set_mod_init
       htable_ops_in_progress pvfs2_request_list unlinked_ops trace
       set_op_timeout_secs set_slot_timeout_secs set_gossip_debug_mask
       set_kernel_mask_set_mod_init set_htable set_request_list
       set_unlinked_ops log final_state negb andb].

Lemma to_u32_le_to_u64 n : to_u32 n <= to_u64 n.
Proof.
  unfold to_u32, to_u64.
  replace (n mod 2 ^ 32) with ((n mod 2 ^ 64) mod 2 ^ 32).
  - apply Z.mod_le; [apply Z.mod_pos_bound|]; lia.
  - apply Z.mod_mod_divide. exists (2 ^ 32). reflexivity.
Qed.

(** *** The loop that initialises the list heads *)

Lemma INIT_LIST_HEAD_run (done todo : nat) s :
  htable_ops_in_progress s =
    Some (replicate done (LIST_HEAD []) ++ replicate (S todo) LIST_ZEROED) ->
  INIT_LIST_HEAD (Z.of_nat done) s =
    Ok tt (set_htable
             (Some (replicate (S done) (LIST_HEAD []) ++
                    replicate todo LIST_ZEROED)) s).
Proof.
  intros Ht. unfold INIT_LIST_HEAD. run. rewrite Ht.
  rewrite bool_decide_true.
  2:{ rewrite length_app, !length_replicate. lia. }
  run. do 3 f_equal. rewrite Nat2Z.id.
  rewrite insert_app_r_alt by (rewrite length_replicate; lia).
  rewrite length_replicate, Nat.sub_diag.
  rewrite (replicate_S_end done), <- app_assoc. reflexivity.
Qed.

Lemma for_each_INIT_LIST_HEAD (k : nat) : forall (done rest : nat) s,
  htable_ops_in_progress s =
    Some (replicate done (LIST_HEAD []) ++ replicate (k + rest) LIST_ZEROED) ->
  for_each k (Z.of_nat done) INIT_LIST_HEAD s =
    Ok tt (set_htable
             (Some (replicate (done + k) (LIST_HEAD []) ++
                    replicate rest LIST_ZEROED)) s).
Proof.
  induction k as [|k IH]; intros done rest s Ht; simpl.
  - run. rewrite Nat.add_0_r. simpl in Ht. rewrite <- Ht. now destruct s.
  - rewrite (bind_Ok _ _ _ _ _ (INIT_LIST_HEAD_run done (k + rest) s Ht)).
    replace (Z.of_nat done + 1) with (Z.of_nat (S done)) by lia.
    rewrite (IH (S done) rest) by reflexivity.
    replace (S done + k)%nat with (done + S k)%nat by lia. reflexivity.
Qed.

Lemma init_heads_run n s :
  htable_ops_in_progress s
    = Some (replicate (Z.to_nat (to_u64 n)) LIST_ZEROED) ->
  for_each (Z.to_nat (to_u32 n)) 0 INIT_LIST_HEAD s =
    Ok tt (set_htable
             (Some (replicate (Z.to_nat (to_u32 n)) (LIST_HEAD []) ++
                    replicate (Z.to_nat (to_u64 n) - Z.to_nat (to_u32 n))
                      LIST_ZEROED)) s).
Proof.
  intros Ht.
  apply (for_each_INIT_LIST_HEAD (Z.to_nat (to_u32 n)) 0
           (Z.to_nat (to_u64 n) - Z.to_nat (to_u32 n)) s).
  rewrite Ht. simpl. do 2 f_equal.
  pose proof (to_u32_le_to_u64 n).
  assert (0 <= to_u32 n) by (apply Z.mod_pos_bound; lia). lia.
Qed.

(** An [int] count that [kcalloc] accepts is not negative, so the unsigned
    loop bound and the [size_t] count are the count itself. *)
Lemma accepted_count n :
  is_int n -> to_u64 n <= SIZE_MAX / sizeof_list_head ->
  0 <= n /\ to_u32 n = n /\ to_u64 n = n.
Proof.
  unfold is_int, to_u32, to_u64, SIZE_MAX, sizeof_list_head. intros Hn Hc.
  assert (0 <= n) as Hpos.
  { destruct (Z_lt_le_dec n 0) as [Hneg|]; [exfalso|assumption].
    assert (n mod 2 ^ 64 = n + 2 ^ 64) as E.
    { symmetry. apply (Z.mod_unique_pos _ _ (-1)); lia. }
    rewrite E in Hc.
    change ((2 ^ 64 - 1) `div` 16) with 1152921504606846975 in Hc. lia. }
  repeat split; [assumption| |]; apply Z.mod_small; lia.
Qed.

(** *** Initialisation *)

(** Case analysis along the tests of [pvfs2_init], outermost first. *)
Ltac decide_next :=
  match goal with
  | |- context [bool_decide ?P] => destruct (bool_decide_reflect P); run
  | |- context [kcalloc_has_memory ?K] =>
      destruct (kcalloc_has_memory K) eqn:?; run
  | |- context [for_each _ 0 INIT_LIST_HEAD _] =>
      rewrite init_heads_run by reflexivity; run
  end.

Ltac caches_cases :=
  unfold pvfs2_init_caches, pvfs2_init_table, kcalloc_htable; run;
  repeat decide_next.

Ltac settle_tests :=
  repeat match goal with
  | |- context [bool_decide ?P] =>
      first [ rewrite (bool_decide_true P) by lia
            | rewrite (bool_decide_false P) by lia ]
  end.

(** The start of [pvfs2_init]: either [bdi_init] fails and that is the end,
    or the rest runs from a state with the timeouts clamped at 0. *)
Lemma pvfs2_init_run K s ret s' :
  pvfs2_init K s = Ok ret s' ->
  exists s1,
    trace s1 = trace s ++
      [ev_call debug_mask_to_string 0; ev_call debug_string_to_mask 0;
       ev_call bdi_init (returns K bdi_init)] /\
    hash_table_size s1 = hash_table_size s /\
    htable_ops_in_progress s1 = htable_ops_in_progress s /\
    pvfs2_request_list s1 = pvfs2_request_list s /\
    unlinked_ops s1 = unlinked_ops s /\
    ((returns K bdi_init <> 0 /\ ret = returns K bdi_init /\ s' = s1 /\
      op_timeout_secs s1 = op_timeout_secs s /\
      slot_timeout_secs s1 = slot_timeout_secs s)
     \/
     (returns K bdi_init = 0 /\ pvfs2_init_caches K s1 = Ok ret s' /\
      op_timeout_secs s1 = Z.max 0 (op_timeout_secs s) /\
      slot_timeout_secs s1 = Z.max 0 (slot_timeout_secs s))).
Proof.
  unfold pvfs2_init. run.
  destruct (bool_decide_reflect
    (valid_debug_mask K (to_u64 (module_parm_debug_mask s)) ≠ 0)); run.
  all: destruct (bool_decide_reflect (returns K bdi_init ≠ 0)); run.
  all: try match goal with
       | |- Ok _ ?st = Ok _ _ -> _ =>
           intros [= <- <-]; exists st;
           repeat (split; [cbn; rewrite <- ?app_assoc; reflexivity|]);
           left; repeat split; assumption
       end.
  all: destruct (bool_decide_reflect (op_timeout_secs s < 0)); run.
  all: destruct (bool_decide_reflect (slot_timeout_secs s < 0)); run.
  all: match goal with
       | |- pvfs2_init_caches _ ?st = _ -> _ =>
           intros E; exists st;
           repeat (split; [cbn; rewrite <- ?app_assoc; reflexivity|]);
           right; split; [lia|split; [exact E|cbn; lia]]
       end.
Qed.

Lemma pvfs2_init_caches_returns K s :
  exists ret s' evs,
    pvfs2_init_caches K s = Ok ret s' /\
    trace s' = trace s ++ evs /\
    hash_table_size s' = hash_table_size s /\
    op_timeout_secs s' = op_timeout_secs s /\
    slot_timeout_secs s' = slot_timeout_secs s /\
    pvfs2_request_list s' = pvfs2_request_list s /\
    unlinked_ops s' = unlinked_ops s.
Proof.
  caches_cases; do 3 eexists; (split; [reflexivity|]);
    (split; [cbn; rewrite <- ?app_assoc; reflexivity|]); repeat split.
Qed.

(** [pvfs2_init] always returns: no path faults or loops. *)
Lemma pvfs2_init_returns K s : exists ret s', pvfs2_init K s = Ok ret s'.
Proof.
  unfold pvfs2_init. run.
  repeat (match goal with
          | |- context [bool_decide ?P] =>
              destruct (bool_decide_reflect P); run
          end; eauto).
  all: match goal with
       | |- context [pvfs2_init_caches ?K ?s1] =>
           destruct (pvfs2_init_caches_returns K s1) as (r & s' & _ & E & _)
       end; eauto.
Qed.

Lemma pvfs2_init_caches_zero_iff K s ret s' :
  pvfs2_init_caches K s = Ok ret s' ->
  ret = 0 <->
    (0 <= returns K op_cache_initialize /\
     0 <= returns K dev_req_cache_initialize /\
     0 <= returns K pvfs2_inode_cache_initialize /\
     0 <= returns K kiocb_cache_initialize /\
     0 <= returns K pvfs2_dev_init) /\
    kcalloc_succeeds K (hash_table_size s) /\
    0 <= returns K fsid_key_table_initialize /\
    returns K orangefs_prepare_debugfs_help_string = 0 /\
    returns K register_filesystem = 0.
Proof.
  unfold kcalloc_succeeds.
  revert s'. caches_cases; intros s' E; simplify_eq;
    (split; [intros; try (exfalso; unfold ENOMEM in *; lia);
             repeat split; try assumption; lia
            | intros (Hc & Hk & ? & ? & ?);
              destruct Hc as (? & ? & ? & ? & ?);
              destruct Hk as [? ?]; try lia; try congruence ]).
Qed.

(** [pvfs2_init] returns 0 exactly when every step succeeds. *)
Lemma pvfs2_init_zero_iff K s ret s' :
  pvfs2_init K s = Ok ret s' ->
  ret = 0 <-> init_succeeds K (hash_table_size s).
Proof.
  intros E. unfold init_succeeds, caches_and_device_up.
  destruct (pvfs2_init_run _ _ _ _ E)
    as (s1 & _ & Hn & _ & _ & _ & [(Hb & -> & _)|(Hb & E1 & _)]).
  - split; [contradiction|]. intros ((? & _) & _). contradiction.
  - rewrite (pvfs2_init_caches_zero_iff _ _ _ _ E1), Hn. tauto.
Qed.

Lemma pvfs2_init_caches_table_ready K s s' :
  is_int (hash_table_size s) ->
  pvfs2_init_caches K s = Ok 0 s' ->
  0 <= hash_table_size s /\
  htable_is (replicate (Z.to_nat (hash_table_size s)) []) s'.
Proof.
  intros Hint. unfold htable_is.
  revert s'. caches_cases; intros s' E; simplify_eq;
    try (exfalso; unfold ENOMEM in *; lia); cbn.
  all: destruct (accepted_count _ Hint ltac:(eassumption)) as (H0 & H32 & H64).
  all: rewrite H32, H64, Nat.sub_diag, app_nil_r, fmap_replicate, length_replicate.
  all: repeat split; try reflexivity; lia.
Qed.

(** On success the table has [hash_table_size] buckets, each an empty
    list. *)
Lemma pvfs2_init_table_ready K s s' :
  is_int (hash_table_size s) ->
  pvfs2_init K s = Ok 0 s' ->
  0 <= hash_table_size s /\
  htable_is (replicate (Z.to_nat (hash_table_size s)) []) s'.
Proof.
  intros Hint E.
  destruct (pvfs2_init_run _ _ _ _ E)
    as (s1 & _ & Hn & _ & _ & _ & [(Hb & Hr & _)|(_ & E1 & _)]).
  - congruence.
  - rewrite <- Hn in *. eapply pvfs2_init_caches_table_ready; eassumption.
Qed.

Lemma outstanding_app held es1 es2 :
  outstanding held (es1 ++ es2) = outstanding (outstanding held es1) es2.
Proof. revert held. induction es1 as [|e es1 IH]; intros held; simpl; auto. Qed.

(** Runs the accounting over a log whose calls are known, settling each
    success test from the hypotheses at hand. *)
Ltac audit :=
  cbn [app];
  repeat (cbn [outstanding]; unfold account at 1;
          cbn [acquired_by released_by]; settle_tests; simpl filter;
          cbn [app]).

Ltac in_log :=
  rewrite ?elem_of_app, ?elem_of_cons, ?elem_of_nil.

Lemma pvfs2_init_caches_failures K s ret s' :
  pvfs2_init_caches K s = Ok ret s' ->
  exists evs,
    trace s' = trace s ++ evs /\
    (ev_call register_filesystem 0 ∈ evs <-> ret = 0) /\
    (0 <= returns K op_cache_initialize ->
     0 <= returns K dev_req_cache_initialize ->
     0 <= returns K pvfs2_inode_cache_initialize ->
     0 <= returns K kiocb_cache_initialize ->
     0 <= returns K pvfs2_dev_init ->
     ~ kcalloc_succeeds K (hash_table_size s) ->
       ret = - ENOMEM /\
       htable_ops_in_progress s' = None /\
       outstanding [res_bdi] evs = [] /\
       exists pre,
         evs = pre ++
           [ev_call kcalloc 0; ev_call pvfs2_dev_cleanup 0;
            ev_call kiocb_cache_finalize 0;
            ev_call pvfs2_inode_cache_finalize 0;
            ev_call dev_req_cache_finalize 0; ev_call op_cache_finalize 0;
            ev_call bdi_destroy 0]).
Proof.
  unfold kcalloc_succeeds.
  revert s'. caches_cases; intros s' E; simplify_eq.
  all: eexists; split; [cbn; rewrite <- ?app_assoc; reflexivity|].
  all: split;
    [ split;
      [ in_log; intros Hin;
        repeat (destruct Hin as [Hin|Hin]; try discriminate Hin);
        try (injection Hin as Hin); try lia; try contradiction
      | intros H0; try (exfalso; unfold ENOMEM in *; lia);
        in_log; repeat (first [left; congruence | right]) ]
    | ].
  all: intros ? ? ? ? ? Hk;
    try (exfalso; lia);
    try (exfalso; apply Hk; split; [lia|congruence]).
  all: repeat split; try reflexivity.
  all: try (audit; reflexivity).
  all: eexists (_ :: _ :: _ :: _ :: _ :: _ :: _ :: []); reflexivity.
Qed.

(** C5 (as amended): failure to allocate the In-Progress Table makes
    [pvfs2_init] return -ENOMEM after unwinding the device subsystem, the
    four caches and the backing-device info, with the table pointer left
    without storage and the filesystem never registered.  It is not the
    only failure that keeps the engine from starting: [pvfs2_init] returns 0,
    and the filesystem is registered, exactly when every one of its steps
    succeeds. *)
Theorem pvfs2_init_failures K s :
  exists ret s' evs,
    pvfs2_init K s = Ok ret s' /\
    trace s' = trace s ++ evs /\
    (ret = 0 <-> init_succeeds K (hash_table_size s)) /\
    (ev_call register_filesystem 0 ∈ evs <-> ret = 0) /\
    (caches_and_device_up K -> ~ kcalloc_succeeds K (hash_table_size s) ->
       ret = - ENOMEM /\
       htable_ops_in_progress s' = None /\
       outstanding [] evs = [] /\
       exists pre,
         evs = pre ++
           [ev_call kcalloc 0; ev_call pvfs2_dev_cleanup 0;
            ev_call kiocb_cache_finalize 0;
            ev_call pvfs2_inode_cache_finalize 0;
            ev_call dev_req_cache_finalize 0; ev_call op_cache_finalize 0;
            ev_call bdi_destroy 0]).
Proof.
  destruct (pvfs2_init_returns K s) as (ret & s' & E).
  exists ret, s'.
  pose proof (pvfs2_init_zero_iff _ _ _ _ E) as Hiff.
  destruct (pvfs2_init_run _ _ _ _ E)
    as (s1 & Ht1 & Hn & _ & _ & _ & [(Hb & -> & -> & _)|(Hb & E1 & _)]).
  - eexists. split; [exact E|]. split; [exact Ht1|].
    split; [exact Hiff|]. split.
    + in_log. split; [|contradiction].
      intros [[=]|[[=]|[[=]|[]]]].
    + intros (? & _). contradiction.
  - destruct (pvfs2_init_caches_failures _ _ _ _ E1)
      as (evs & Ht & Hreg & Hmem).
    eexists. split; [exact E|].
    split; [rewrite Ht, Ht1, <- app_assoc; reflexivity|].
    split; [exact Hiff|]. split.
    + rewrite <- Hreg. in_log. split; [|tauto].
      intros [[[=]|[[=]|[[=]|[]]]]|Hin]; exact Hin.
    + intros (_ & ? & ? & ? & ? & ?) Hk. rewrite <- Hn in Hk.
      destruct Hmem as (-> & Hnone & Hout & pre & ->); try assumption.
      repeat split; try assumption.
      * rewrite outstanding_app. audit. exact Hout.
      * eexists. rewrite app_assoc. reflexivity.
Qed.

Lemma pvfs2_init_failures_witness :
  exists s', pvfs2_init kernel_no_memory sample_load = Ok (- ENOMEM) s' /\
             htable_ops_in_progress s' = None.
Proof.
  destruct (pvfs2_init_failures kernel_no_memory sample_load)
    as (ret & s' & evs & E & _ & _ & _ & H).
  destruct H as (-> & Hnone & _).
  - repeat split; reflexivity || (cbn; lia).
  - intros [_ [=]].
  - exists s'. split; assumption.
Defined.

(** C5, the claim as it stands fails: with memory available for the table,
    a failing [op_cache_initialize] keeps the engine from starting just as
    well; the table is never even asked for. *)
Lemma pvfs2_init_fails_with_memory_available :
  exists s',
    pvfs2_init (kernel_failing op_cache_initialize (-12)) sample_load
      = Ok (-12) s' /\
    kcalloc_succeeds (kernel_failing op_cache_initialize (-12))
      (hash_table_size sample_load) /\
    (ev_call register_filesystem 0 ∉ trace s') /\
    (ev_call kcalloc 0 ∉ trace s').
Proof.
  eexists. split; [reflexivity|]. split; [split; [|reflexivity]|split].
  - intros [=].
  - apply (bool_decide_unpack _). reflexivity.
  - apply (bool_decide_unpack _). reflexivity.
Qed.

Lemma pvfs2_init_caches_unwinding K s ret s' :
  pvfs2_init_caches K s = Ok ret s' ->
  exists evs,
    trace s' = trace s ++ evs /\
    (0 <= returns K op_cache_initialize ->
     0 <= returns K dev_req_cache_initialize ->
     0 <= returns K pvfs2_inode_cache_initialize ->
     0 <= returns K kiocb_cache_initialize ->
     0 <= returns K pvfs2_dev_init ->
     kcalloc_succeeds K (hash_table_size s) ->
     0 <= returns K fsid_key_table_initialize ->
     returns K orangefs_prepare_debugfs_help_string <> 0 ->
       ret = returns K orangefs_prepare_debugfs_help_string /\
       last evs = Some (ev_call orangefs_prepare_debugfs_help_string ret) /\
       Forall (fun e => released_by e = None) evs /\
       is_Some (htable_ops_in_progress s') /\
       outstanding [res_bdi] evs =
         [res_bdi; res_op_cache; res_dev_req_cache; res_inode_cache;
          res_kiocb_cache; res_device; res_htable; res_fsid_table]) /\
    (~ (0 <= returns K op_cache_initialize /\
        0 <= returns K dev_req_cache_initialize /\
        0 <= returns K pvfs2_inode_cache_initialize /\
        0 <= returns K kiocb_cache_initialize /\
        0 <= returns K pvfs2_dev_init /\
        kcalloc_succeeds K (hash_table_size s) /\
        0 <= returns K fsid_key_table_initialize /\
        returns K orangefs_prepare_debugfs_help_string <> 0) ->
     ret <> 0 -> outstanding [res_bdi] evs = []).
Proof.
  unfold kcalloc_succeeds.
  revert s'. caches_cases; intros s' E; simplify_eq.
  all: eexists; split; [cbn; rewrite <- ?app_assoc; reflexivity|].
  all: split;
    [ intros ? ? ? ? ? [? ?] ? ?; try (exfalso; lia); try congruence
    | intros Hnot Hret; try (exfalso; clear Hnot; lia);
      try (exfalso; apply Hnot; clear Hnot; repeat split;
           (lia || congruence));
      clear Hnot ].
  all: try (audit; reflexivity).
  split; [reflexivity|]. split; [reflexivity|].
  split; [repeat constructor|]. split; [eauto|audit; reflexivity].
Qed.

(** C9: when [orangefs_prepare_debugfs_help_string] fails, [pvfs2_init]
    returns its error at once: no clean-up call is made, the table stays
    allocated, and the backing-device info, the four caches, the device
    subsystem, the table and the fsid key table all stay acquired.  Every
    other failing path releases whatever it had acquired. *)
Theorem pvfs2_init_help_string_failure K s :
  exists ret s' evs,
    pvfs2_init K s = Ok ret s' /\
    trace s' = trace s ++ evs /\
    (help_string_fails K (hash_table_size s) ->
       ret = returns K orangefs_prepare_debugfs_help_string /\
       last evs = Some (ev_call orangefs_prepare_debugfs_help_string ret) /\
       Forall (fun e => released_by e = None) evs /\
       is_Some (htable_ops_in_progress s') /\
       outstanding [] evs =
         [res_bdi; res_op_cache; res_dev_req_cache; res_inode_cache;
          res_kiocb_cache; res_device; res_htable; res_fsid_table]) /\
    (~ help_string_fails K (hash_table_size s) -> ret <> 0 ->
       outstanding [] evs = []).
Proof.
  destruct (pvfs2_init_returns K s) as (ret & s' & E).
  exists ret, s'. unfold help_string_fails, caches_and_device_up.
  destruct (pvfs2_init_run _ _ _ _ E)
    as (s1 & Ht1 & Hn & _ & _ & _ & [(Hb & -> & -> & _)|(Hb & E1 & _)]).
  - eexists. split; [exact E|]. split; [exact Ht1|]. split.
    + intros ((? & _) & _). contradiction.
    + intros _ _. audit. reflexivity.
  - destruct (pvfs2_init_caches_unwinding _ _ _ _ E1)
      as (evs & Ht & Hleak & Hfree).
    rewrite Hn in Hleak, Hfree.
    eexists. split; [exact E|].
    split; [rewrite Ht, Ht1, <- app_assoc; reflexivity|].
    assert (forall held,
      outstanding []
        ([ev_call debug_mask_to_string 0; ev_call debug_string_to_mask 0;
          ev_call bdi_init (returns K bdi_init)] ++ evs) = held <->
      outstanding [res_bdi] evs = held) as Hout.
    { intros held. rewrite outstanding_app. audit. reflexivity. }
    split.
    + intros ((_ & ? & ? & ? & ? & ?) & ? & ? & ?).
      destruct Hleak as (-> & Hlast & Hnone & Hsome & Hheld); try assumption.
      split; [reflexivity|]. split.
      { rewrite last_app, Hlast. reflexivity. }
      split; [repeat constructor; exact Hnone|].
      split; [exact Hsome|]. apply Hout. exact Hheld.
    + intros Hnot Hret. apply Hout, Hfree; [|exact Hret].
      intros (? & ? & ? & ? & ? & ? & ? & ?). apply Hnot. tauto.
Qed.

Lemma pvfs2_init_help_string_failure_witness :
  exists s' evs,
    pvfs2_init (kernel_failing orangefs_prepare_debugfs_help_string (-12))
      sample_load = Ok (-12) s' /\
    trace s' = evs /\
    outstanding [] evs =
      [res_bdi; res_op_cache; res_dev_req_cache; res_inode_cache;
       res_kiocb_cache; res_device; res_htable; res_fsid_table].
Proof.
  destruct (pvfs2_init_help_string_failure
              (kernel_failing orangefs_prepare_debugfs_help_string (-12))
              sample_load)
    as (ret & s' & evs & E & Ht & Hleak & _).
  destruct Hleak as (-> & _ & _ & _ & Hheld).
  - repeat split; try reflexivity; try (cbn; lia); intros [=].
  - exists s', evs. split; [exact E|]. split; [exact Ht|exact Hheld].
Defined.

(** C10: a successful [pvfs2_init] leaves both timeouts clamped at 0: a
    negative [op_timeout_secs] or [slot_timeout_secs] has become 0, any
    other value is kept, and so neither is negative. *)
Theorem pvfs2_init_clamps_timeouts K s s' :
  pvfs2_init K s = Ok 0 s' ->
  op_timeout_secs s' = (if bool_decide (op_timeout_secs s < 0) then 0
                        else op_timeout_secs s) /\
  slot_timeout_secs s' = (if bool_decide (slot_timeout_secs s < 0) then 0
                          else slot_timeout_secs s) /\
  0 <= op_timeout_secs s' /\ 0 <= slot_timeout_secs s'.
Proof.
  intros E.
  destruct (pvfs2_init_run _ _ _ _ E)
    as (s1 & _ & _ & _ & _ & _ & [(Hb & Hr & _)|(_ & E1 & Hop & Hslot)]).
  - congruence.
  - destruct (pvfs2_init_caches_returns K s1)
      as (r & s2 & _ & E2 & _ & _ & Hop2 & Hslot2 & _).
    rewrite E1 in E2. injection E2 as <- <-.
    rewrite Hop2, Hslot2, Hop, Hslot.
    repeat case_bool_decide; lia.
Qed.

Lemma pvfs2_init_clamps_timeouts_witness :
  exists s', pvfs2_init kernel_ok sample_load = Ok 0 s' /\
             op_timeout_secs sample_load = -5 /\
             slot_timeout_secs sample_load = -1 /\
             op_timeout_secs s' = 0 /\ slot_timeout_secs s' = 0.
Proof.
  assert (exists s', pvfs2_init kernel_ok sample_load = Ok 0 s') as [s' E]
    by (eexists; vm_compute; reflexivity).
  exists s'. split; [exact E|]. split; [reflexivity|].
  split; [reflexivity|].
  destruct (pvfs2_init_clamps_timeouts kernel_ok sample_load s' E)
    as (Hop & Hslot & _).
  split; [exact Hop|exact Hslot].
Defined.

(** *** The purge sweep *)

Lemma htable_chain_run i tbl c s :
  htable_ops_in_progress s = Some tbl -> 0 <= i ->
  tbl !! Z.to_nat i = Some (LIST_HEAD c) ->
  htable_chain i s = Ok c s.
Proof.
  intros Ht Hi Hc. unfold htable_chain. run.
  rewrite Ht, bool_decide_true, Hc by assumption. reflexivity.
Qed.

Lemma update_op_run i j f tbl c op s :
  htable_ops_in_progress s = Some tbl -> 0 <= i ->
  tbl !! Z.to_nat i = Some (LIST_HEAD c) -> c !! j = Some op ->
  update_op i j f s =
    Ok tt (set_htable
             (Some (<[Z.to_nat i := LIST_HEAD (<[j := f op]> c)]> tbl)) s).
Proof.
  intros Ht Hi Hc Hj. unfold update_op.
  rewrite (bind_Ok _ _ _ _ _ (htable_chain_run _ _ _ _ Ht Hi Hc)), Hj.
  unfold set_htable_chain. run. rewrite Ht. reflexivity.
Qed.

Lemma op_at_run i j tbl c op s :
  htable_ops_in_progress s = Some tbl -> 0 <= i ->
  tbl !! Z.to_nat i = Some (LIST_HEAD c) -> c !! j = Some op ->
  op_at i j s = Ok op s.
Proof.
  intros Ht Hi Hc Hj. unfold op_at.
  rewrite (bind_Ok _ _ _ _ _ (htable_chain_run _ _ _ _ Ht Hi Hc)), Hj.
  reflexivity.
Qed.

(** One turn of the loop body: the record at hand is marked and woken in
    place, between taking and dropping its own lock. *)
Lemma purge_entry_run i j tbl c op s :
  htable_ops_in_progress s = Some tbl -> 0 <= i ->
  tbl !! Z.to_nat i = Some (LIST_HEAD c) -> c !! j = Some op ->
  purge_entry i j s =
    Ok tt (log (purge_log_op op)
             (set_htable
                (Some (<[Z.to_nat i := LIST_HEAD (<[j := purged op]> c)]> tbl))
                s)).
Proof.
  intros Ht Hi Hc Hj.
  pose proof (lookup_lt_Some _ _ _ Hc) as Hlen.
  pose proof (lookup_lt_Some _ _ _ Hj) as Hlenj.
  unfold purge_entry, set_op_state_purged, wake_up_interruptible. run.
  rewrite (op_at_run _ _ _ _ _ _ Ht Hi Hc Hj). run.
  erewrite op_at_run; [|exact Ht|exact Hi|exact Hc|exact Hj]. run.
  erewrite update_op_run; [|exact Ht|exact Hi|exact Hc|exact Hj]. run.
  erewrite op_at_run; [|reflexivity|exact Hi| |].
  2:{ apply list_lookup_insert_eq. exact Hlen. }
  2:{ apply list_lookup_insert_eq. exact Hlenj. }
  run.
  erewrite update_op_run; [|reflexivity|exact Hi| |].
  2:{ apply list_lookup_insert_eq. exact Hlen. }
  2:{ apply list_lookup_insert_eq. exact Hlenj. }
  rewrite !list_insert_insert_eq.
  unfold purge_log_op, purged, log, set_htable; cbn.
  rewrite <- !app_assoc. reflexivity.
Qed.

Lemma purge_entries_run i (rest : list pvfs2_kernel_op_s) :
  forall pre tbl s,
    htable_ops_in_progress s = Some tbl -> 0 <= i ->
    tbl !! Z.to_nat i = Some (LIST_HEAD (pre ++ rest)) ->
    list_for_each_entry_safe rest (length pre) (purge_entry i) s =
      Ok tt (log (concat (purge_log_op <$> rest))
               (set_htable
                  (Some (<[Z.to_nat i :=
                             LIST_HEAD (pre ++ (purged <$> rest))]> tbl))
                  s)).
Proof.
  induction rest as [|op next IH]; intros pre tbl s Ht Hi Hc; simpl.
  - run. rewrite list_insert_id by exact Hc.
    rewrite <- Ht. destruct s; unfold log, set_htable; cbn.
    rewrite app_nil_r. reflexivity.
  - assert ((pre ++ op :: next) !! length pre = Some op) as Hj.
    { rewrite lookup_app_r, Nat.sub_diag by lia. reflexivity. }
    rewrite (bind_Ok _ _ _ _ _ (purge_entry_run _ _ _ _ _ _ Ht Hi Hc Hj)).
    pose proof (lookup_lt_Some _ _ _ Hc) as Hlen.
    assert (<[length pre := purged op]> (pre ++ op :: next)
            = (pre ++ [purged op]) ++ next) as Hins.
    { rewrite insert_app_r_alt, Nat.sub_diag, <- app_assoc by lia.
      reflexivity. }
    rewrite Hins.
    replace (S (length pre)) with (length (pre ++ [purged op]))
      by (rewrite length_app; simpl; lia).
    erewrite IH; [|reflexivity|exact Hi|].
    2:{ apply list_lookup_insert_eq. exact Hlen. }
    rewrite list_insert_insert_eq, <- app_assoc.
    unfold log, set_htable; cbn. rewrite <- !app_assoc. reflexivity.
Qed.

Lemma purge_bucket_run i tbl c s :
  htable_ops_in_progress s = Some tbl -> 0 <= i ->
  tbl !! Z.to_nat i = Some (LIST_HEAD c) ->
  purge_bucket i s =
    Ok tt (log (ev_walk (htable_bucket i) :: concat (purge_log_op <$> c))
             (set_htable
                (Some (<[Z.to_nat i := LIST_HEAD (purged <$> c)]> tbl)) s)).
Proof.
  intros Ht Hi Hc. unfold purge_bucket. run.
  erewrite htable_chain_run; [|exact Ht|exact Hi|exact Hc]. run.
  rewrite (purge_entries_run i c [] tbl); [|exact Ht|exact Hi|exact Hc].
  unfold log, set_htable; cbn. rewrite <- !app_assoc. reflexivity.
Qed.

Lemma purge_buckets_run (todo : list (list pvfs2_kernel_op_s)) :
  forall (done : list (list pvfs2_kernel_op_s)) s,
    htable_ops_in_progress s = Some (LIST_HEAD <$> (done ++ todo)) ->
    for_each (length todo) (Z.of_nat (length done)) purge_bucket s =
      Ok tt (log (purge_log (Z.of_nat (length done)) todo)
               (set_htable
                  (Some (LIST_HEAD <$> (done ++ purged_chains todo))) s)).
Proof.
  induction todo as [|c todo IH]; intros done s Ht; simpl.
  - run. rewrite <- Ht. destruct s; unfold log, set_htable; cbn.
    rewrite app_nil_r. reflexivity.
  - assert ((LIST_HEAD <$> (done ++ c :: todo))
              !! Z.to_nat (Z.of_nat (length done)) = Some (LIST_HEAD c)) as Hc.
    { rewrite Nat2Z.id, list_lookup_fmap, lookup_app_r, Nat.sub_diag by lia.
      reflexivity. }
    rewrite (bind_Ok _ _ _ _ _
               (purge_bucket_run _ _ _ _ Ht (Nat2Z.is_nonneg _) Hc)).
    assert (<[Z.to_nat (Z.of_nat (length done)) := LIST_HEAD (purged <$> c)]>
              (LIST_HEAD <$> (done ++ c :: todo))
            = LIST_HEAD <$> ((done ++ [purged <$> c]) ++ todo)) as Hins.
    { rewrite Nat2Z.id, !fmap_app, fmap_cons.
      rewrite insert_app_r_alt by (rewrite length_fmap; lia).
      rewrite length_fmap, Nat.sub_diag, <- app_assoc. reflexivity. }
    rewrite Hins.
    replace (Z.of_nat (length done) + 1)
      with (Z.of_nat (length (done ++ [purged <$> c])))
      by (rewrite length_app; simpl; lia).
    rewrite IH by reflexivity.
    rewrite <- app_assoc.
    unfold log, set_htable; cbn [hash_table_size op_timeout_secs
      slot_timeout_secs module_parm_debug_mask gossip_debug_mask
      kernel_mask_set_mod_init htable_ops_in_progress pvfs2_request_list
      unlinked_ops trace app].
    rewrite <- !app_assoc. reflexivity.
Qed.

(** The whole sweep on a table that is in place. *)
Lemma purge_inprogress_ops_run chains s :
  htable_is chains s ->
  purge_inprogress_ops s =
    Ok tt (log (purge_log 0 chains)
             (set_htable (Some (LIST_HEAD <$> purged_chains chains)) s)).
Proof.
  intros [Ht Hn]. unfold purge_inprogress_ops. run.
  rewrite Hn, Nat2Z.id.
  exact (purge_buckets_run chains [] s Ht).
Qed.


(** *** Teardown *)

Lemma while_S fuel cond body s b s1 :
  cond s = Ok b s1 ->
  while (S fuel) cond body s =
    if b then (body ;; while fuel cond body) s1 else Ok tt s1.
Proof.
  intros Hc. cbn [while]. rewrite (bind_Ok _ _ _ _ _ Hc).
  destruct b; reflexivity.
Qed.

Lemma release_request_list_head_run op q s :
  pvfs2_request_list s = op :: q ->
  release_request_list_head s =
    Ok tt (log (release_log op) (set_request_list q s)).
Proof.
  intros Hq. unfold release_request_list_head. run. rewrite Hq. run.
  unfold log; cbn. rewrite <- !app_assoc. reflexivity.
Qed.

Lemma drain_queue_run (q : list pvfs2_kernel_op_s) : forall fuel s,
  pvfs2_request_list s = q -> (length q < fuel)%nat ->
  while fuel request_list_nonempty release_request_list_head s =
    Ok tt (log (concat (release_log <$> q)) (set_request_list [] s)).
Proof.
  induction q as [|op q IH]; intros fuel s Hq Hfuel;
    (destruct fuel as [|fuel]; [simpl in Hfuel; lia|]);
    erewrite while_S by reflexivity; rewrite Hq; cbn [bool_decide negb].
  - destruct s; cbn in Hq; subst; unfold log, set_request_list; cbn.
    rewrite app_nil_r. reflexivity.
  - change (negb (bool_decide (op :: q = []))) with true. cbv iota.
    rewrite (bind_Ok _ _ _ _ _ (release_request_list_head_run _ _ _ Hq)).
    rewrite (IH fuel) by (reflexivity || (simpl in Hfuel; lia)).
    unfold log, set_request_list; cbn. rewrite <- !app_assoc. reflexivity.
Qed.

Lemma drain_queue_short (q : list pvfs2_kernel_op_s) : forall fuel s,
  pvfs2_request_list s = q -> (fuel <= length q)%nat ->
  exists s', while fuel request_list_nonempty release_request_list_head s
             = Stop OutOfFuel s' /\
             htable_ops_in_progress s' = htable_ops_in_progress s.
Proof.
  induction q as [|op q IH]; intros fuel s Hq Hfuel;
    (destruct fuel as [|fuel]; [eexists; split; reflexivity|]);
    simpl in Hfuel.
  - lia.
  - erewrite while_S by reflexivity. rewrite Hq.
    change (negb (bool_decide (op :: q = []))) with true. cbv iota.
    rewrite (bind_Ok _ _ _ _ _ (release_request_list_head_run _ _ _ Hq)).
    destruct (IH fuel (log (release_log op) (set_request_list q s)))
      as (s' & E & Hs'); [reflexivity|lia|].
    exists s'. split; [exact E|exact Hs'].
Qed.

(** The drain of the Pending Queue, given budget for it. *)
Lemma drain_request_list_run fuel s :
  (length (pvfs2_request_list s) < fuel)%nat ->
  drain_request_list fuel s =
    Ok tt (log ([ev_spin_lock pvfs2_request_list_lock; ev_walk request_list]
                  ++ concat (release_log <$> pvfs2_request_list s)
                  ++ [ev_spin_unlock pvfs2_request_list_lock])
             (set_request_list [] s)).
Proof.
  intros Hfuel. unfold drain_request_list. run.
  rewrite (drain_queue_run (pvfs2_request_list s)) by (cbn; auto). run.
  unfold log, set_request_list; cbn. rewrite <- !app_assoc. reflexivity.
Qed.

Lemma drain_request_list_cases fuel s :
  (exists s', drain_request_list fuel s = Ok tt s' /\
              hash_table_size s' = hash_table_size s /\
              htable_ops_in_progress s' = htable_ops_in_progress s /\
              pvfs2_request_list s' = []) \/
  (exists s', drain_request_list fuel s = Stop OutOfFuel s' /\
              htable_ops_in_progress s' = htable_ops_in_progress s).
Proof.
  destruct (Nat.lt_ge_cases (length (pvfs2_request_list s)) fuel) as [H|H].
  - left. eexists. split; [apply drain_request_list_run; exact H|].
    repeat split.
  - right. unfold drain_request_list. run.
    destruct (drain_queue_short (pvfs2_request_list s) fuel
                (log [ev_walk request_list]
                   (log [ev_spin_lock pvfs2_request_list_lock] s))
                eq_refl H) as (s' & -> & Hs').
    exists s'. split; [reflexivity|exact Hs'].
Qed.

(** The loop over a bucket that holds a record never gets past its head:
    [op_release] is called on it again and again, and it stays linked. *)
Lemma drain_bucket_spins i tbl op c : forall fuel s,
  htable_ops_in_progress s = Some tbl -> 0 <= i ->
  tbl !! Z.to_nat i = Some (LIST_HEAD (op :: c)) ->
  while fuel (bucket_nonempty i) (release_bucket_head i) s =
    Stop OutOfFuel (log (replicate fuel (ev_op_release (tag op))) s).
Proof.
  induction fuel as [|fuel IH]; intros s Ht Hi Hc.
  - cbn. run. rewrite log_nil. reflexivity.
  - erewrite while_S.
    2:{ unfold bucket_nonempty.
        rewrite (bind_Ok _ _ _ _ _ (htable_chain_run _ _ _ _ Ht Hi Hc)).
        reflexivity. }
    change (negb (bool_decide (op :: c = []))) with true. cbv iota.
    erewrite (bind_Ok (release_bucket_head i)).
    2:{ unfold release_bucket_head.
        rewrite (bind_Ok _ _ _ _ _ (htable_chain_run _ _ _ _ Ht Hi Hc)).
        reflexivity. }
    rewrite IH by assumption. rewrite log_log. reflexivity.
Qed.

Lemma drain_bucket_empty i tbl fuel s :
  htable_ops_in_progress s = Some tbl -> 0 <= i ->
  tbl !! Z.to_nat i = Some (LIST_HEAD []) ->
  drain_bucket fuel i s =
    match fuel with
    | O => Stop OutOfFuel (log [ev_walk (htable_bucket i)] s)
    | S _ => Ok tt (log [ev_walk (htable_bucket i)] s)
    end.
Proof.
  intros Ht Hi Hc. unfold drain_bucket.
  erewrite (bind_Ok (emit _)) by reflexivity.
  destruct fuel as [|fuel]; [reflexivity|].
  erewrite while_S.
  2:{ unfold bucket_nonempty. erewrite (bind_Ok (htable_chain i)).
      - reflexivity.
      - eapply htable_chain_run; [exact Ht|exact Hi|exact Hc]. }
  reflexivity.
Qed.

(** With a record on some chain, the loop over the buckets does not come
    to an end, whatever the budget. *)
Lemma drain_buckets_spin fuel (todo : list (list pvfs2_kernel_op_s)) :
  forall (done : list (list pvfs2_kernel_op_s)) s,
    htable_ops_in_progress s = Some (LIST_HEAD <$> (done ++ todo)) ->
    concat todo <> [] ->
    exists s',
      for_each (length todo) (Z.of_nat (length done)) (drain_bucket fuel) s
        = Stop OutOfFuel s' /\
      htable_ops_in_progress s' = htable_ops_in_progress s.
Proof.
  induction todo as [|c todo IH]; intros done s Ht Hne;
    [exfalso; apply Hne; reflexivity|].
  cbn [length for_each].
  assert ((LIST_HEAD <$> (done ++ c :: todo))
            !! Z.to_nat (Z.of_nat (length done)) = Some (LIST_HEAD c)) as Hc.
  { rewrite Nat2Z.id, list_lookup_fmap, lookup_app_r, Nat.sub_diag by lia.
    reflexivity. }
  destruct c as [|op c].
  - rewrite (bind_Ok_or_Stop _ _ _ _
      (drain_bucket_empty _ _ fuel _ Ht (Nat2Z.is_nonneg _) Hc)).
    destruct fuel as [|fuel]; [eexists; split; reflexivity|].
    replace (Z.of_nat (length done) + 1)
      with (Z.of_nat (length (done ++ [[]])))
      by (rewrite length_app; simpl; lia).
    destruct (IH (done ++ [[]])
                (log [ev_walk (htable_bucket (Z.of_nat (length done)))] s))
      as (s' & E & Hs').
    + cbn. rewrite Ht, <- app_assoc. reflexivity.
    + exact Hne.
    + exists s'. split; [exact E|exact Hs'].
  - exists (log (replicate fuel (ev_op_release (tag op)))
              (log [ev_walk (htable_bucket (Z.of_nat (length done)))] s)).
    split; [|reflexivity].
    apply bind_Stop.
    unfold drain_bucket. erewrite (bind_Ok (emit _)) by reflexivity.
    eapply drain_bucket_spins; [exact Ht|apply Nat2Z.is_nonneg|exact Hc].
Qed.

(** Whatever the buckets hold, teardown with a record on some chain runs
    out of any budget inside the loop over that chain; the table is never
    emptied and never freed. *)
Lemma pvfs2_exit_never_finishes fuel chains s :
  htable_is chains s -> concat chains <> [] ->
  exists s', pvfs2_exit fuel s = Stop OutOfFuel s' /\
             htable_ops_in_progress s' = htable_ops_in_progress s.
Proof.
  intros [Ht Hn] Hne. unfold pvfs2_exit. run.
  match goal with
  | |- context [drain_request_list fuel ?s5] =>
      destruct (drain_request_list_cases fuel s5)
        as [(s6 & -> & Hn6 & Ht6 & _)|(s6 & -> & Ht6)]
  end; cbn in Ht6.
  - cbn in Hn6. unfold drain_htable. run.
    rewrite Hn6, Hn, Nat2Z.id.
    destruct (drain_buckets_spin fuel chains [] s6) as (s' & E & Hs');
      [rewrite Ht6; exact Ht|exact Hne|].
    change (Z.of_nat (length [])) with 0 in E. rewrite E.
    exists s'. split; [reflexivity|]. rewrite Hs', Ht6. reflexivity.
  - exists s6. split; [reflexivity|exact Ht6].
Qed.

Lemma drain_buckets_idle fuel (todo : list (list pvfs2_kernel_op_s)) :
  forall (done : list (list pvfs2_kernel_op_s)) s,
    htable_ops_in_progress s = Some (LIST_HEAD <$> (done ++ todo)) ->
    concat todo = [] ->
    for_each (length todo) (Z.of_nat (length done)) (drain_bucket (S fuel)) s
      = Ok tt (log ((fun i => ev_walk (htable_bucket i)) <$>
                      seqZ (Z.of_nat (length done)) (Z.of_nat (length todo)))
                 s).
Proof.
  induction todo as [|c todo IH]; intros done s Ht He.
  - cbn. run. rewrite log_nil. reflexivity.
  - cbn [concat] in He. apply app_eq_nil in He as [-> He].
    cbn [length for_each].
    assert ((LIST_HEAD <$> (done ++ [] :: todo))
              !! Z.to_nat (Z.of_nat (length done)) = Some (LIST_HEAD []))
      as Hc.
    { rewrite Nat2Z.id, list_lookup_fmap, lookup_app_r, Nat.sub_diag by lia.
      reflexivity. }
    rewrite (bind_Ok _ _ _ _ _
      (drain_bucket_empty _ _ (S fuel) _ Ht (Nat2Z.is_nonneg _) Hc)).
    replace (Z.of_nat (length done) + 1)
      with (Z.of_nat (length (done ++ [[]])))
      by (rewrite length_app; simpl; lia).
    rewrite IH; [|cbn; rewrite Ht, <- app_assoc; reflexivity|exact He].
    rewrite log_log. f_equal. f_equal.
    rewrite (seqZ_cons (Z.of_nat (length done))) by lia.
    rewrite fmap_cons. cbn [app].
    replace (Z.of_nat (length (done ++ [[]])))
      with (Z.succ (Z.of_nat (length done)))
      by (rewrite length_app; simpl; lia).
    replace (Z.pred (Z.of_nat (S (length todo))))
      with (Z.of_nat (length todo)) by lia.
    reflexivity.
Qed.

(** With every bucket empty, teardown comes to its end, given budget for
    the Pending Queue: the queue is left empty and the table is freed. *)
Lemma pvfs2_exit_finishes_when_idle fuel chains s :
  htable_is chains s -> concat chains = [] ->
  (length (pvfs2_request_list s) < fuel)%nat ->
  exists s',
    pvfs2_exit fuel s = Ok tt s' /\
    pvfs2_request_list s' = [] /\
    htable_ops_in_progress s' = None.
Proof.
  intros [Ht Hn] He Hfuel. unfold pvfs2_exit. run.
  rewrite drain_request_list_run by exact Hfuel. run.
  unfold drain_htable. run. rewrite Hn, Nat2Z.id.
  destruct fuel as [|fuel]; [lia|].
  rewrite (drain_buckets_idle fuel chains []); [|exact Ht|exact He]. run.
  eexists. split; [reflexivity|]. split; reflexivity.
Qed.

(** C2: on a table that still holds records, here two on the chain of
    bucket 1, [pvfs2_exit] does not complete its drain for any budget: the
    loop over that chain releases its head without unlinking it, so the
    chain never becomes empty. *)
Theorem pvfs2_exit_spins_on_linked_op :
  forall fuel,
    exists s', pvfs2_exit fuel sample_busy = Stop OutOfFuel s' /\
               table_ops s' = [op_7; op_10].
Proof.
  intros fuel.
  destruct (pvfs2_exit_never_finishes fuel [[]; [op_7; op_10]; []]
              sample_busy) as (s' & E & Ht).
  - split; reflexivity.
  - discriminate.
  - exists s'. split; [exact E|]. unfold table_ops. rewrite Ht. reflexivity.
Qed.

(** *** Reading the log of the purge sweep *)

Lemma walks_purge_log_ops (c : list pvfs2_kernel_op_s) :
  walks (concat (purge_log_op <$> c)) = [].
Proof. induction c as [|op c IH]; [reflexivity|exact IH]. Qed.

Lemma walks_app es1 es2 : walks (es1 ++ es2) = walks es1 ++ walks es2.
Proof. apply omap_app. Qed.

Lemma walks_purge_log (chains : list (list pvfs2_kernel_op_s)) : forall i,
  walks (purge_log i chains)
    = htable_bucket <$> seqZ i (Z.of_nat (length chains)).
Proof.
  induction chains as [|c chains IH]; intros i; [reflexivity|].
  cbn [purge_log length]. rewrite seqZ_cons by lia. rewrite fmap_cons.
  change (walks (ev_walk (htable_bucket i)
                   :: concat (purge_log_op <$> c) ++ purge_log (i + 1) chains))
    with (htable_bucket i
            :: walks (concat (purge_log_op <$> c) ++ purge_log (i + 1) chains)).
  rewrite walks_app, walks_purge_log_ops, IH. cbn [app].
  do 3 f_equal; lia.
Qed.

Lemma locks_taken_purge_log (chains : list (list pvfs2_kernel_op_s)) :
  forall i,
    locks_taken (purge_log i chains)
      = (fun op => op_lock (tag op)) <$> concat chains.
Proof.
  induction chains as [|c chains IH]; intros i; [reflexivity|].
  cbn [purge_log concat]. rewrite fmap_app, <- (IH (i + 1)).
  unfold locks_taken. cbn [omap list_omap]. rewrite omap_app. f_equal.
  induction c as [|op c IHc]; [reflexivity|].
  cbn. f_equal. exact IHc.
Qed.

Lemma wakeups_purge_log (chains : list (list pvfs2_kernel_op_s)) :
  forall i, wakeups (purge_log i chains) = tag <$> concat chains.
Proof.
  induction chains as [|c chains IH]; intros i; [reflexivity|].
  cbn [purge_log concat]. rewrite fmap_app, <- (IH (i + 1)).
  unfold wakeups. cbn [omap list_omap]. rewrite omap_app. f_equal.
  induction c as [|op c IHc]; [reflexivity|].
  cbn. f_equal. exact IHc.
Qed.


Lemma held_after_app held es1 es2 :
  held_after held (es1 ++ es2) = held_after (held_after held es1) es2.
Proof.
  revert held. induction es1 as [|e es1 IH]; intros held; [reflexivity|].
  destruct e; cbn; apply IH.
Qed.

Lemma held_after_cons held e es :
  held_after held (e :: es) = held_after (held_after held [e]) es.
Proof. exact (held_after_app held [e] es). Qed.

Lemma most_held_ge held es : (length held <= most_held held es)%nat.
Proof. destruct es; cbn; lia. Qed.

Lemma most_held_app held es1 es2 :
  most_held held (es1 ++ es2)
    = Nat.max (most_held held es1) (most_held (held_after held es1) es2).
Proof.
  revert held. induction es1 as [|e es1 IH]; intros held.
  - cbn. pose proof (most_held_ge held es2). lia.
  - cbn [app most_held]. rewrite IH, (held_after_cons held e es1). lia.
Qed.

Lemma held_purge_log_op op :
  held_after [] (purge_log_op op) = [] /\
  most_held [] (purge_log_op op) = 1%nat.
Proof.
  unfold purge_log_op. cbn.
  rewrite decide_False by (intros H; apply H; reflexivity).
  split; reflexivity.
Qed.

Lemma held_purge_log_ops (c : list pvfs2_kernel_op_s) :
  held_after [] (concat (purge_log_op <$> c)) = [] /\
  (most_held [] (concat (purge_log_op <$> c)) <= 1)%nat.
Proof.
  induction c as [|op c [IH1 IH2]]; [split; cbn; [reflexivity|lia]|].
  rewrite fmap_cons. cbn [concat].
  destruct (held_purge_log_op op) as [H1 H2].
  rewrite held_after_app, most_held_app, H1, H2. split; [exact IH1|lia].
Qed.

Lemma held_purge_log (chains : list (list pvfs2_kernel_op_s)) : forall i,
  held_after [] (purge_log i chains) = [] /\
  (most_held [] (purge_log i chains) <= 1)%nat.
Proof.
  induction chains as [|c chains IH]; intros i; [split; cbn; [reflexivity|lia]|].
  cbn [purge_log].
  destruct (held_purge_log_ops c) as [H1 H2].
  destruct (IH (i + 1)) as [H3 H4].
  change (ev_walk (htable_bucket i)
            :: concat (purge_log_op <$> c) ++ purge_log (i + 1) chains)
    with ([ev_walk (htable_bucket i)]
            ++ concat (purge_log_op <$> c) ++ purge_log (i + 1) chains).
  rewrite !held_after_app, !most_held_app. cbn [held_after].
  rewrite H1. split; [exact H3|]. cbn [most_held length held_after]. lia.
Qed.







Lemma table_ops_heads chains s :
  htable_ops_in_progress s = Some (LIST_HEAD <$> chains) ->
  table_ops s = concat chains.
Proof.
  intros Ht. unfold table_ops. rewrite Ht. f_equal.
  rewrite <- list_fmap_compose. apply list_fmap_id.
Qed.

Lemma concat_purged_chains chains :
  concat (purged_chains chains) = purged <$> concat chains.
Proof.
  induction chains as [|c chains IH]; [reflexivity|].
  unfold purged_chains in *. rewrite fmap_cons. cbn [concat].
  rewrite fmap_app, IH. reflexivity.
Qed.

(** The sweep, with its outcome spelled out. *)
Lemma purge_inprogress_ops_outcome chains s :
  htable_is chains s ->
  exists s',
    purge_inprogress_ops s = Ok tt s' /\
    trace s' = trace s ++ purge_log 0 chains /\
    htable_is (purged_chains chains) s' /\
    table_ops s = concat chains /\
    table_ops s' = purged <$> concat chains /\
    pvfs2_request_list s' = pvfs2_request_list s /\
    unlinked_ops s' = unlinked_ops s.
Proof.
  intros H. pose proof H as [Ht Hn].
  eexists. split; [apply purge_inprogress_ops_run; exact H|].
  split; [reflexivity|]. split.
  - split; [reflexivity|]. cbn. rewrite Hn. unfold purged_chains.
    rewrite length_fmap. reflexivity.
  - split; [exact (table_ops_heads _ _ Ht)|].
    split; [|split; reflexivity].
    rewrite (table_ops_heads (purged_chains chains)) by reflexivity.
    apply concat_purged_chains.
Qed.

(** *** The shutdown sweeps *)






(** C3 (as amended): the purge sweep keeps one direction of the invariant
    only.  After it no record is [Claimed] outside the table, and the tags
    in the table are those that were there; but every record in the table
    is now [Purged], so "in the table implies [Claimed]" fails as soon as
    the table holds a record. *)
Theorem purge_keeps_claimed_only_in_table chains s :
  htable_is chains s ->
  claimed_iff_in_table s ->
  exists s',
    purge_inprogress_ops s = Ok tt s' /\
    claimed_only_in_table s' /\
    tag <$> table_ops s' = tag <$> table_ops s /\
    Forall (fun op => op_state op = Purged) (table_ops s') /\
    (table_ops s <> [] -> ~ claimed_iff_in_table s').
Proof.
  intros H Hinv.
  destruct (purge_inprogress_ops_outcome _ _ H)
    as (s' & E & _ & _ & Hops & Hops' & Hq & Hu).
  assert (tag <$> table_ops s' = tag <$> table_ops s) as Htags.
  { rewrite Hops, Hops', <- list_fmap_compose. reflexivity. }
  assert (Forall (fun op => op_state op = Purged) (table_ops s')) as Hp.
  { rewrite Hops'. apply Forall_fmap, Forall_true. reflexivity. }
  exists s'. split; [exact E|]. split; [|split; [exact Htags|split; [exact Hp|]]].
  - unfold claimed_only_in_table, claimed_iff_in_table, all_ops in *.
    rewrite Htags, Hq, Hu.
    apply Forall_app in Hinv as [_ Hrest].
    apply Forall_app. split.
    + eapply Forall_impl; [exact Hp|]. cbn. intros op -> [=].
    + eapply Forall_impl; [exact Hrest|]. cbn. intros op Hop. apply Hop.
  - intros Hne Hinv'.
    unfold claimed_iff_in_table, all_ops in Hinv'.
    apply Forall_app in Hinv' as [Hin _].
    assert (table_ops s' <> []) as Hne'.
    { rewrite Hops'. intros Hnil. apply fmap_nil_inv in Hnil.
      rewrite Hops in Hne. contradiction. }
    clear Htags Hops'.
    destruct (table_ops s') as [|op' ops']; [contradiction|].
    + apply Forall_cons in Hin as [Hop' _].
      apply Forall_cons in Hp as [Hpurged _].
      assert (op_state op' = Claimed) as Hc by (apply Hop'; left).
      congruence.
Qed.

Lemma purge_keeps_claimed_only_in_table_witness :
  exists s',
    purge_inprogress_ops sample_busy = Ok tt s' /\
    claimed_only_in_table s'.
Proof.
  destruct (purge_keeps_claimed_only_in_table [[]; [op_7; op_10]; []]
              sample_busy) as (s' & E & Hc & _).
  - split; reflexivity.
  - apply (bool_decide_unpack _). vm_compute. reflexivity.
  - exists s'. split; [exact E|exact Hc].
Defined.

(** C3, the claim as it stands fails: the sample satisfies the invariant,
    and the state the sweep leaves does not. *)
Lemma purge_breaks_claimed_iff_in_table :
  claimed_iff_in_table sample_busy /\
  exists s',
    purge_inprogress_ops sample_busy = Ok tt s' /\
    ~ claimed_iff_in_table s'.
Proof.
  split; [apply (bool_decide_unpack _); vm_compute; reflexivity|].
  eexists. split; [vm_compute; reflexivity|].
  apply (bool_decide_unpack _). vm_compute. reflexivity.
Qed.

#[global] Instance htable_bucket_inj : Inj (=) (=) htable_bucket.
Proof. intros i j [=]. assumption. Qed.





(** C6: the locks taken by the purge sweep are the per-operation locks of
    the records on the chains, one after the other; neither
    [htable_ops_in_progress_lock] nor [pvfs2_request_list_lock] is ever
    taken, at no point is more than one lock held, and none is held when
    the sweep ends. *)
Theorem purge_takes_only_op_locks chains s :
  htable_is chains s ->
  exists s' evs,
    purge_inprogress_ops s = Ok tt s' /\
    trace s' = trace s ++ evs /\
    locks_taken evs = (fun op => op_lock (tag op)) <$> table_ops s /\
    (ev_spin_lock htable_ops_in_progress_lock ∉ evs) /\
    (ev_spin_lock pvfs2_request_list_lock ∉ evs) /\
    (most_held [] evs <= 1)%nat /\
    held_after [] evs = [].
Proof.
  intros H.
  destruct (purge_inprogress_ops_outcome _ _ H)
    as (s' & E & Ht & _ & Hops & _).
  exists s', (purge_log 0 chains).
  destruct (held_purge_log chains 0) as [Hheld Hmost].
  assert (forall l, ev_spin_lock l ∈ purge_log 0 chains ->
            exists op, l = op_lock (tag op)) as Hl.
  { intros l Hin.
    assert (l ∈ locks_taken (purge_log 0 chains)) as Hl.
    { apply list_elem_of_omap. eexists. split; [exact Hin|reflexivity]. }
    rewrite locks_taken_purge_log in Hl.
    apply list_elem_of_fmap in Hl as (op & -> & _). eauto. }
  split; [exact E|]. split; [exact Ht|].
  split; [rewrite Hops; apply locks_taken_purge_log|].
  split; [intros Hin; destruct (Hl _ Hin) as [op [=]]|].
  split; [intros Hin; destruct (Hl _ Hin) as [op [=]]|].
  split; [exact Hmost|exact Hheld].
Qed.

Lemma purge_takes_only_op_locks_witness :
  exists s',
    purge_inprogress_ops sample_busy = Ok tt s' /\
    locks_taken (trace s') = [op_lock 7; op_lock 10].
Proof.
  destruct (purge_takes_only_op_locks [[]; [op_7; op_10]; []] sample_busy)
    as (s' & evs & E & Ht & Hl & _).
  - split; reflexivity.
  - exists s'. split; [exact E|]. rewrite Ht. exact Hl.
Defined.

(** *** What no run changes *)

Section Frame.

Context (R : relation module_state) `{!PreOrder R}.

Lemma keeps_ret {A} (a : A) : keeps R (mret a).
Proof. intros s. reflexivity. Qed.

Lemma keeps_gets {A} (f : module_state -> A) : keeps R (gets f).
Proof. intros s. reflexivity. Qed.

Lemma keeps_fault {A} : keeps R (@fault A).
Proof. intros s. reflexivity. Qed.

Lemma keeps_out_of_fuel {A} : keeps R (@out_of_fuel A).
Proof. intros s. reflexivity. Qed.

Lemma keeps_modify f : (forall s, R s (f s)) -> keeps R (modify f).
Proof. intros Hf s. apply Hf. Qed.

Lemma keeps_bind {A B} (m : M A) (f : A -> M B) :
  keeps R m -> (forall a, keeps R (f a)) -> keeps R (m ≫= f).
Proof.
  intros Hm Hf s. specialize (Hm s). unfold mbind, M_bind.
  destruct (m s) as [a s1|k s1]; cbn in *; [|exact Hm].
  transitivity s1; [exact Hm|apply Hf].
Qed.

Lemma keeps_for_each body :
  (forall i, keeps R (body i)) -> forall todo i, keeps R (for_each todo i body).
Proof.
  intros Hb todo. induction todo as [|todo IH]; intros i; cbn [for_each].
  - apply keeps_ret.
  - apply keeps_bind; [apply Hb|intros _; apply IH].
Qed.

Lemma keeps_while cond body :
  keeps R cond -> keeps R body -> forall fuel, keeps R (while fuel cond body).
Proof.
  intros Hc Hb fuel. induction fuel as [|fuel IH]; cbn [while].
  - apply keeps_out_of_fuel.
  - apply keeps_bind; [exact Hc|]. intros [|]; [|apply keeps_ret].
    apply keeps_bind; [exact Hb|intros _; exact IH].
Qed.

Lemma keeps_list_for_each_entry_safe body :
  (forall j, keeps R (body j)) ->
  forall rest j, keeps R (list_for_each_entry_safe rest j body).
Proof.
  intros Hb rest. induction rest as [|op rest IH]; intros j;
    cbn [list_for_each_entry_safe].
  - apply keeps_ret.
  - apply keeps_bind; [apply Hb|intros _; apply IH].
Qed.

End Frame.

#[global] Instance same_size_preorder : PreOrder same_size.
Proof.
  split; [intros s; reflexivity|].
  intros s1 s2 s3 H12 H23. unfold same_size in *. congruence.
Qed.

#[global] Instance same_buckets_preorder : PreOrder same_buckets.
Proof.
  split; [intros s; split; reflexivity|].
  intros s1 s2 s3 [H12 H12'] [H23 H23']. unfold same_buckets in *.
  split; congruence.
Qed.

(** Breaks a program down to its primitive steps. *)
Ltac frame_steps :=
  repeat match goal with
  | |- PreOrder _ => exact _
  | |- forall _, _ => intros ?
  | |- keeps _ (if ?b then _ else _) => destruct b
  | |- keeps _ (match ?x with Some _ => _ | None => _ end) => destruct x
  | |- keeps _ (match ?x with [] => _ | _ :: _ => _ end) => destruct x
  | |- keeps _ (match ?x with LIST_ZEROED => _ | LIST_HEAD _ => _ end) =>
      destruct x
  | |- keeps _ (mret _) => apply keeps_ret
  | |- keeps _ (gets _) => apply keeps_gets
  | |- keeps _ fault => apply keeps_fault
  | |- keeps _ out_of_fuel => apply keeps_out_of_fuel
  | |- keeps _ (for_each _ _ _) => apply keeps_for_each
  | |- keeps _ (while _ _ _) => apply keeps_while
  | |- keeps _ (list_for_each_entry_safe _ _ _) =>
      apply keeps_list_for_each_entry_safe
  | |- keeps _ (_ ≫= _) => apply keeps_bind
  end.

Ltac frame :=
  unfold call, call_void, spin_lock, spin_unlock, emit, op_release,
    kfree_htable, out, err, cleanup_op, cleanup_req, cleanup_inode,
    cleanup_kiocb, cleanup_device, cleanup_progress_table;
  frame_steps;
  try (apply keeps_modify; intros ?; try split; reflexivity).

Lemma keeps_same_buckets_htable_chain i : keeps same_buckets (htable_chain i).
Proof. unfold htable_chain. frame. Qed.

Lemma keeps_same_buckets_update_op i j f : keeps same_buckets (update_op i j f).
Proof.
  unfold update_op, set_htable_chain.
  apply keeps_bind; [exact _|apply keeps_same_buckets_htable_chain|intros c].
  destruct (c !! j); [|apply keeps_fault; exact _].
  intros s. unfold mbind, M_bind, gets, modify.
  destruct (htable_ops_in_progress s) as [tbl|] eqn:Ht; cbn.
  - split; [reflexivity|]. cbn. rewrite Ht. cbn.
    rewrite length_insert. reflexivity.
  - split; reflexivity.
Qed.

Lemma keeps_same_buckets_purge : keeps same_buckets purge_inprogress_ops.
Proof.
  unfold purge_inprogress_ops, purge_bucket, purge_entry,
    set_op_state_purged, wake_up_interruptible, op_at.
  frame;
    first [apply keeps_same_buckets_htable_chain
          |apply keeps_same_buckets_update_op].
Qed.

Lemma keeps_same_size_htable_chain i : keeps same_size (htable_chain i).
Proof. unfold htable_chain. frame. Qed.

Lemma keeps_same_size_pvfs2_exit fuel : keeps same_size (pvfs2_exit fuel).
Proof.
  unfold pvfs2_exit, drain_request_list, drain_htable, drain_bucket,
    request_list_nonempty, release_request_list_head, bucket_nonempty,
    release_bucket_head.
  frame; apply keeps_same_size_htable_chain.
Qed.

Lemma keeps_same_size_pvfs2_init K : keeps same_size (pvfs2_init K).
Proof.
  unfold pvfs2_init, pvfs2_init_caches, pvfs2_init_table, kcalloc_htable,
    INIT_LIST_HEAD.
  frame.
Qed.

Lemma pvfs2_init_caches_table K s ret s' :
  is_int (hash_table_size s) ->
  pvfs2_init_caches K s = Ok ret s' ->
  htable_ops_in_progress s' = htable_ops_in_progress s \/
  htable_ops_in_progress s' = None \/
  (0 <= hash_table_size s /\
   htable_ops_in_progress s' =
     Some (replicate (Z.to_nat (hash_table_size s)) (LIST_HEAD []))).
Proof.
  intros Hint.
  revert s'. caches_cases; intros s' E; simplify_eq; cbn; auto.
  all: right; right.
  all: destruct (accepted_count _ Hint ltac:(eassumption)) as (H0 & H32 & H64).
  all: rewrite H32, H64, Nat.sub_diag, app_nil_r.
  all: split; [assumption|reflexivity].
Qed.

(** C8: [hash_table_size] is 509 unless set otherwise, and no function of
    this file writes it: not initialisation, not the purge sweep, not
    teardown; the sweep also keeps the number of buckets.  Whenever [pvfs2_init] returns with the table
    allocated, as it does when it returns 0, the table has
    [hash_table_size] buckets and every one of them is an empty list. *)
Theorem hash_table_size_is_fixed :
  (forall op_t slot_t, hash_table_size (module_defaults op_t slot_t) = 509) /\
  (forall K s, same_size s (final_state (pvfs2_init K s))) /\
  (forall s, same_buckets s (final_state (purge_inprogress_ops s))) /\
  (forall fuel s, same_size s (final_state (pvfs2_exit fuel s))) /\
  (forall K s ret s' tbl,
     is_int (hash_table_size s) ->
     htable_ops_in_progress s = None ->
     pvfs2_init K s = Ok ret s' ->
     htable_ops_in_progress s' = Some tbl ->
     0 <= hash_table_size s' /\
     Z.of_nat (length tbl) = hash_table_size s' /\
     tbl = replicate (Z.to_nat (hash_table_size s')) (LIST_HEAD [])) /\
  (forall K s s',
     is_int (hash_table_size s) ->
     pvfs2_init K s = Ok 0 s' ->
     htable_ops_in_progress s' =
       Some (replicate (Z.to_nat (hash_table_size s')) (LIST_HEAD []))).
Proof.
  split; [reflexivity|].
  split; [intros K; apply keeps_same_size_pvfs2_init|].
  split; [apply keeps_same_buckets_purge|].
  split; [intros fuel; apply keeps_same_size_pvfs2_exit|].
  split.
  - intros K s ret s' tbl Hint Hnull E Ht.
    pose proof (keeps_same_size_pvfs2_init K s) as Hsize.
    rewrite E in Hsize. cbn in Hsize. unfold same_size in Hsize.
    rewrite Hsize.
    destruct (pvfs2_init_run _ _ _ _ E)
      as (s1 & _ & Hn & Ht1 & _ & _ & [(_ & _ & -> & _)|(_ & E1 & _)]).
    + congruence.
    + rewrite <- Hn in Hint |- *.
      destruct (pvfs2_init_caches_table _ _ _ _ Hint E1)
        as [H|[H|[H0 H]]]; [congruence|congruence|].
      rewrite Ht in H. injection H as ->.
      rewrite length_replicate. repeat split; [assumption|lia].
  - intros K s s' Hint E.
    pose proof (keeps_same_size_pvfs2_init K s) as Hsize.
    rewrite E in Hsize. cbn in Hsize. unfold same_size in Hsize.
    destruct (pvfs2_init_table_ready _ _ _ Hint E) as [_ [Ht _]].
    rewrite Ht, Hsize, fmap_replicate. reflexivity.
Qed.

Lemma hash_table_size_is_fixed_witness :
  exists s',
    pvfs2_init kernel_ok (module_defaults 20 900) = Ok 0 s' /\
    hash_table_size s' = 509 /\
    htable_ops_in_progress s' = Some (replicate 509 (LIST_HEAD [])).
Proof.
  assert (exists s', pvfs2_init kernel_ok (module_defaults 20 900) = Ok 0 s')
    as [s' E] by (eexists; vm_compute; reflexivity).
  destruct hash_table_size_is_fixed as (_ & Hsize & _ & _ & _ & Hready).
  specialize (Hsize kernel_ok (module_defaults 20 900)).
  rewrite E in Hsize. cbn in Hsize. unfold same_size in Hsize.
  assert (is_int (hash_table_size (module_defaults 20 900))) as Hint
    by (unfold is_int; cbn; lia).
  specialize (Hready kernel_ok _ s' Hint E).
  rewrite Hsize in Hready.
  exists s'. split; [exact E|]. split; [exact Hsize|exact Hready].
Defined.

(** *** Completions *)

Lemma NoDup_tags_of_chain (ls : list (list pvfs2_kernel_op_s)) c :
  c ∈ ls -> NoDup (tag <$> concat ls) -> NoDup (tag <$> c).
Proof.
  induction ls as [|l ls IH]; intros Hin Hnd; [inversion Hin|].
  cbn [concat] in Hnd. rewrite fmap_app in Hnd.
  apply NoDup_app in Hnd as (Hl & _ & Hls).
  apply elem_of_cons in Hin as [->|Hin]; [exact Hl|exact (IH Hin Hls)].
Qed.

Lemma chain_in_table (tb : list list_head) i c :
  tb !! i = Some (LIST_HEAD c) -> c ∈ chain_of <$> tb.
Proof.
  intros Hc. apply list_elem_of_fmap. exists (LIST_HEAD c).
  split; [reflexivity|]. eapply list_elem_of_lookup_2. exact Hc.
Qed.

Lemma elem_of_concat_chain (ls : list (list pvfs2_kernel_op_s)) c op :
  op ∈ c -> c ∈ ls -> op ∈ concat ls.
Proof.
  intros Hop. induction ls as [|l ls IH]; intros Hin; [inversion Hin|].
  cbn [concat]. apply elem_of_app.
  apply elem_of_cons in Hin as [<-|Hin]; [left; exact Hop|right; auto].
Qed.

Lemma op_on_chain_in_table s tb i c op :
  htable_ops_in_progress s = Some tb ->
  tb !! i = Some (LIST_HEAD c) -> op ∈ c -> op ∈ table_ops s.
Proof.
  intros Ht Hc Hop. unfold table_ops. rewrite Ht.
  eapply elem_of_concat_chain; [exact Hop|].
  eapply chain_in_table. exact Hc.
Qed.

(** With tags unique on a chain, taking the record found for a tag off
    the chain leaves no record with that tag on it. *)
Lemma list_find_delete_unique t (c : list pvfs2_kernel_op_s) j op :
  NoDup (tag <$> c) ->
  list_find (fun op => tag op = t) c = Some (j, op) ->
  list_find (fun op => tag op = t) (delete j c) = None.
Proof.
  intros Hnd Hfind. apply list_find_Some in Hfind as (Hj & Htag & _).
  apply list_find_None, Forall_forall. intros op' Hin Htag'.
  apply list_elem_of_lookup in Hin as [k Hk].
  assert (exists k', k' <> j /\ c !! k' = Some op') as (k' & Hne & Hk').
  { destruct (Nat.lt_ge_cases k j) as [Hlt|Hge].
    - exists k. split; [lia|]. rewrite list_lookup_delete_lt in Hk by lia.
      exact Hk.
    - exists (S k). split; [lia|].
      rewrite list_lookup_delete_ge in Hk by lia. exact Hk. }
  apply Hne. eapply (NoDup_lookup (tag <$> c)); [exact Hnd| |].
  - rewrite list_lookup_fmap, Hk'. cbn. rewrite Htag'. reflexivity.
  - rewrite list_lookup_fmap, Hj. cbn. rewrite Htag. reflexivity.
Qed.

(** C7: with tags unique in the table, once [complete] has succeeded for
    a tag the record, now [Serviced] with the response attached, is off the
    table, and a second [complete] for the same tag answers false and
    leaves the whole state as it is; the same holds for any [complete]
    whose tag belongs only to records in a terminal state. *)
Theorem complete_twice_is_ignored :
  (forall t r r2 s s1,
     NoDup (tag <$> table_ops s) ->
     complete t r s = Ok true s1 ->
     (exists op,
        op ∈ table_ops s /\ tag op = t /\ op_state op = Claimed /\
        unlinked_ops s1 =
          woken (with_op_state Serviced (with_downcall r op))
            :: unlinked_ops s) /\
     complete t r2 s1 = Ok false s1) /\
  (forall t r s,
     (forall op, op ∈ table_ops s -> tag op = t ->
                 terminal (op_state op) = true) ->
     complete t r s = Ok false s).
Proof.
  split.
  - intros t r r2 s s1 Hnd. unfold complete. run.
    destruct (htable_ops_in_progress s) as [tb|] eqn:Ht; [|intros [=]].
    destruct (tb !! Z.to_nat (t `mod` hash_table_size s))
      as [[|c]|] eqn:Hc; [intros [=]| |intros [=]].
    destruct (list_find _ c) as [[j op]|] eqn:Hfind; [|intros [=]].
    case_bool_decide as Hst; [|intros [=]]. run. intros [= <-].
    pose proof Hfind as Hfind'.
    apply list_find_Some in Hfind' as (Hj & Htag & _).
    split.
    + exists op. repeat split; try assumption.
      eapply op_on_chain_in_table; [exact Ht|exact Hc|].
      eapply list_elem_of_lookup_2. exact Hj.
    + cbn. rewrite list_lookup_insert_eq
        by (eapply lookup_lt_Some; exact Hc).
      rewrite (list_find_delete_unique t c j op); [reflexivity| |exact Hfind].
      eapply NoDup_tags_of_chain; [eapply chain_in_table; exact Hc|].
      unfold table_ops in Hnd. rewrite Ht in Hnd. exact Hnd.
  - intros t r s Hterm. unfold complete. run.
    destruct (htable_ops_in_progress s) as [tb|] eqn:Ht; [|reflexivity].
    destruct (tb !! Z.to_nat (t `mod` hash_table_size s))
      as [[|c]|] eqn:Hc; try reflexivity.
    destruct (list_find _ c) as [[j op]|] eqn:Hfind; [|reflexivity].
    apply list_find_Some in Hfind as (Hj & Htag & _).
    assert (terminal (op_state op) = true) as Hop.
    { apply Hterm; [|exact Htag].
      eapply op_on_chain_in_table; [exact Ht|exact Hc|].
      eapply list_elem_of_lookup_2. exact Hj. }
    rewrite bool_decide_false; [reflexivity|].
    intros Hcl. rewrite Hcl in Hop. discriminate.
Qed.

Lemma complete_twice_is_ignored_witness :
  exists s1,
    complete 7 [42] sample_busy = Ok true s1 /\
    table_ops s1 = [op_10] /\
    unlinked_ops s1 = [mk_op 7 1 (Some [42]) Serviced 1] /\
    complete 7 [43] s1 = Ok false s1.
Proof.
  assert (exists s1, complete 7 [42] sample_busy = Ok true s1) as [s1 E]
    by (eexists; vm_compute; reflexivity).
  destruct complete_twice_is_ignored as [Hfirst _].
  destruct (Hfirst 7 [42] [43] sample_busy s1) as [_ Hsecond].
  - apply (bool_decide_unpack _). vm_compute. reflexivity.
  - exact E.
  - exists s1. split; [exact E|].
    injection E as <-.
    split; [reflexivity|]. split; [reflexivity|exact Hsecond].
Defined.

(** ** Further properties of initialisation and teardown *)

Lemma pvfs2_init_caches_error K s ret s' :
  pvfs2_init_caches K s = Ok ret s' ->
  ret = 0 \/
  (ret = - ENOMEM /\ ~ kcalloc_succeeds K (hash_table_size s)) \/
  (exists f, f ∈ init_steps /\ ret = returns K f /\ ret <> 0 /\
             ev_call f ret ∈ trace s').
Proof.
  unfold kcalloc_succeeds.
  revert s'. caches_cases; intros s' E; simplify_eq.
  all: first
    [ left; reflexivity
    | right; left; split;
      [reflexivity|intros [? ?]; first [lia|congruence]]
    | match goal with
      | |- returns _ ?g = 0 \/ _ => right; right; exists g
      end;
      split; [apply (bool_decide_unpack _); reflexivity|];
      split; [reflexivity|]; split; [lia|];
      cbn; rewrite <- ?app_assoc; cbn [app]; in_log;
      repeat (first [left; reflexivity|right]) ].
Qed.

(** [pvfs2_init] returns on every path, the loop over the list heads
    staying inside the array [kcalloc] returned, and what it returns is 0,
    or -ENOMEM for a table that could not be allocated, or the non-zero
    answer of the step that failed. *)
Theorem pvfs2_init_returns_the_error_of_its_step K s :
  exists ret s',
    pvfs2_init K s = Ok ret s' /\
    (ret = 0 \/
     (ret = - ENOMEM /\ ~ kcalloc_succeeds K (hash_table_size s)) \/
     (exists f, f ∈ init_steps /\ ret = returns K f /\ ret <> 0 /\
                ev_call f ret ∈ trace s')).
Proof.
  destruct (pvfs2_init_returns K s) as (ret & s' & E).
  exists ret, s'. split; [exact E|].
  destruct (pvfs2_init_run _ _ _ _ E)
    as (s1 & Ht1 & Hn & _ & _ & _ & [(Hb & -> & -> & _)|(Hb & E1 & _)]).
  - right; right. exists bdi_init.
    split; [apply (bool_decide_unpack _); reflexivity|].
    split; [reflexivity|]. split; [exact Hb|].
    rewrite Ht1. in_log. right. right. right. left. reflexivity.
  - rewrite <- Hn. exact (pvfs2_init_caches_error _ _ _ _ E1).
Qed.

(** A negative [hash_table_size] can never be allocated: the count
    reaches [kcalloc] as a huge [size_t]. *)
Lemma negative_count_refused K n :
  is_int n -> n < 0 -> ~ kcalloc_succeeds K n.
Proof.
  intros Hint Hneg [Hc _].
  destruct (accepted_count n Hint Hc) as [H0 _]. lia.
Qed.

(** With a negative [hash_table_size], and everything before the table
    up, [pvfs2_init] fails with -ENOMEM whether or not memory is
    available, and leaves no table behind. *)
Theorem pvfs2_init_refuses_negative_size K s :
  is_int (hash_table_size s) -> hash_table_size s < 0 ->
  caches_and_device_up K ->
  exists s',
    pvfs2_init K s = Ok (- ENOMEM) s' /\
    htable_ops_in_progress s' = None /\
    (ev_call register_filesystem 0 ∉ drop (length (trace s)) (trace s')).
Proof.
  intros Hint Hneg (Hb & ? & ? & ? & ? & ?).
  destruct (pvfs2_init_returns K s) as (ret & s' & E).
  destruct (pvfs2_init_run _ _ _ _ E)
    as (s1 & Ht1 & Hn & _ & _ & _ & [(Hb' & _)|(_ & E1 & _)]);
    [contradiction|].
  destruct (pvfs2_init_caches_failures _ _ _ _ E1)
    as (evs & Ht & Hreg & Hmem).
  destruct Hmem as (-> & Hnone & _); try assumption.
  { rewrite Hn. apply negative_count_refused; assumption. }
  exists s'. split; [exact E|]. split; [exact Hnone|].
  rewrite Ht, Ht1, <- app_assoc, drop_app_length.
  in_log. intros [[[=]|[[=]|[[=]|[]]]]|Hin].
  apply Hreg in Hin. unfold ENOMEM in Hin. lia.
Qed.

Lemma pvfs2_init_refuses_negative_size_witness :
  exists s',
    pvfs2_init kernel_ok
      (mk_state (-1) 20 900 0 0 false None [] [] []) = Ok (-12) s' /\
    htable_ops_in_progress s' = None.
Proof.
  destruct (pvfs2_init_refuses_negative_size kernel_ok
              (mk_state (-1) 20 900 0 0 false None [] [] []))
    as (s' & E & Hnone & _).
  - unfold is_int. cbn. lia.
  - cbn. lia.
  - repeat split; cbn; lia.
  - exists s'. split; [exact E|exact Hnone].
Defined.

Lemma outstanding_no_calls held es :
  Forall (fun e => acquired_by e = None /\ released_by e = None) es ->
  outstanding held es = held.
Proof.
  revert held. induction es as [|e es IH]; intros held Hes; [reflexivity|].
  apply Forall_cons in Hes as [[Ha Hr] Hes].
  cbn [outstanding]. unfold account. rewrite Ha, Hr. apply IH, Hes.
Qed.

Lemma pvfs2_init_caches_success_log K s s' :
  pvfs2_init_caches K s = Ok 0 s' ->
  exists evs,
    trace s' = trace s ++ evs /\
    outstanding [res_bdi] evs = all_resources.
Proof.
  revert s'. caches_cases; intros s' E; simplify_eq;
    try (exfalso; unfold ENOMEM in *; lia).
  all: eexists; split; [cbn; rewrite <- ?app_assoc; reflexivity|].
  all: audit; reflexivity.
Qed.

(** Teardown of an idle engine, with its log. *)
Lemma pvfs2_exit_idle_log fuel chains s :
  htable_is chains s -> concat chains = [] ->
  (length (pvfs2_request_list s) < fuel)%nat ->
  exists s' evs,
    pvfs2_exit fuel s = Ok tt s' /\
    trace s' = trace s ++ evs /\
    outstanding all_resources evs = [] /\
    pvfs2_request_list s' = [] /\
    htable_ops_in_progress s' = None /\
    hash_table_size s' = hash_table_size s.
Proof.
  intros [Ht Hn] He Hfuel. unfold pvfs2_exit. run.
  rewrite drain_request_list_run by exact Hfuel. run.
  unfold drain_htable. run. rewrite Hn, Nat2Z.id.
  destruct fuel as [|fuel]; [lia|].
  rewrite (drain_buckets_idle fuel chains []); [|exact Ht|exact He]. run.
  do 2 eexists. split; [reflexivity|].
  split; [cbn; rewrite <- ?app_assoc; reflexivity|].
  split; [|split; [reflexivity|split; [reflexivity|exact Hn]]].
  audit.
  rewrite !outstanding_app.
  rewrite (outstanding_no_calls _ (concat _)).
  2:{ generalize (pvfs2_request_list s). intros q.
      induction q as [|op q IH]; [constructor|].
      rewrite fmap_cons. cbn [concat release_log app].
      repeat (constructor; [split; reflexivity|]). exact IH. }
  audit.
  rewrite (outstanding_no_calls _ (_ <$> _)).
  2:{ apply Forall_fmap, Forall_true. intros i. split; reflexivity. }
  audit. reflexivity.
Qed.

(** Initialisation followed by teardown gives back everything: after a
    successful [pvfs2_init] all eleven resources are held; [pvfs2_exit],
    with budget for the Pending Queue, then runs to its end, and over the
    two logs together nothing stays acquired, the table is freed and the
    Pending Queue is empty. *)
Theorem pvfs2_init_then_exit_releases_everything K s s1 fuel :
  is_int (hash_table_size s) ->
  pvfs2_init K s = Ok 0 s1 ->
  (length (pvfs2_request_list s) < fuel)%nat ->
  exists s2 evs1 evs2,
    trace s1 = trace s ++ evs1 /\
    outstanding [] evs1 = all_resources /\
    pvfs2_exit fuel s1 = Ok tt s2 /\
    trace s2 = trace s1 ++ evs2 /\
    outstanding [] (evs1 ++ evs2) = [] /\
    htable_ops_in_progress s2 = None /\
    pvfs2_request_list s2 = [] /\
    hash_table_size s2 = hash_table_size s.
Proof.
  intros Hint E Hfuel.
  destruct (pvfs2_init_table_ready _ _ _ Hint E) as [H0 Hready].
  destruct (pvfs2_init_run _ _ _ _ E)
    as (s0 & Ht0 & Hn0 & _ & Hq0 & _ & [(Hb & Hr & _)|(Hb & E1 & _)]);
    [congruence|].
  destruct (pvfs2_init_caches_success_log _ _ _ E1) as (evs & Ht & Hall).
  destruct (pvfs2_init_caches_returns K s0)
    as (r & s1' & _ & E1' & _ & Hn1 & _ & _ & Hq1 & _).
  rewrite E1 in E1'. injection E1' as <- <-.
  destruct (pvfs2_exit_idle_log fuel _ s1 Hready)
    as (s2 & evs2 & E2 & Ht2 & Hout & Hq2 & Hnone & Hn2).
  - clear. induction (Z.to_nat (hash_table_size s)); [reflexivity|assumption].
  - rewrite Hq1, Hq0. exact Hfuel.
  - exists s2,
      ([ev_call debug_mask_to_string 0; ev_call debug_string_to_mask 0;
        ev_call bdi_init (returns K bdi_init)] ++ evs), evs2.
    split; [rewrite Ht, Ht0, <- app_assoc; reflexivity|].
    assert (outstanding []
              ([ev_call debug_mask_to_string 0; ev_call debug_string_to_mask 0;
                ev_call bdi_init (returns K bdi_init)] ++ evs)
            = all_resources) as Hheld.
    { rewrite outstanding_app. audit. exact Hall. }
    split; [exact Hheld|]. split; [exact E2|]. split; [exact Ht2|].
    split; [rewrite outstanding_app, Hheld; exact Hout|].
    split; [exact Hnone|]. split; [exact Hq2|].
    rewrite Hn2, Hn1, Hn0. reflexivity.
Qed.

Lemma pvfs2_init_then_exit_releases_everything_witness :
  exists s1 s2,
    pvfs2_init kernel_ok (module_defaults 20 900) = Ok 0 s1 /\
    pvfs2_exit 1 s1 = Ok tt s2 /\
    outstanding [] (trace s2) = [].
Proof.
  assert (exists s1, pvfs2_init kernel_ok (module_defaults 20 900) = Ok 0 s1)
    as [s1 E] by (eexists; vm_compute; reflexivity).
  destruct (pvfs2_init_then_exit_releases_everything kernel_ok
              (module_defaults 20 900) s1 1)
    as (s2 & evs1 & evs2 & Ht1 & _ & E2 & Ht2 & Hout & _).
  - unfold is_int. cbn. lia.
  - exact E.
  - cbn. lia.
  - exists s1, s2. split; [exact E|]. split; [exact E2|].
    rewrite Ht2, Ht1. exact Hout.
Defined.

#[global] Instance same_masks_preorder : PreOrder same_masks.
Proof.
  split; [intros s; split; reflexivity|].
  intros s1 s2 s3 [H12 H12'] [H23 H23']. unfold same_masks in *.
  split; congruence.
Qed.

Lemma keeps_same_masks_pvfs2_init_caches K :
  keeps same_masks (pvfs2_init_caches K).
Proof.
  unfold pvfs2_init_caches, pvfs2_init_table, kcalloc_htable, INIT_LIST_HEAD.
  frame.
Qed.

(** Whatever happens later, [pvfs2_init] leaves [gossip_debug_mask] at the
    valid part of the module parameter, and has set
    [kernel_mask_set_mod_init] exactly when that part is not zero; a failing
    step does not undo either. *)
Theorem pvfs2_init_sets_debug_mask K s :
  gossip_debug_mask (final_state (pvfs2_init K s))
    = valid_debug_mask K (to_u64 (module_parm_debug_mask s)) /\
  kernel_mask_set_mod_init (final_state (pvfs2_init K s))
    = (if bool_decide
            (valid_debug_mask K (to_u64 (module_parm_debug_mask s)) ≠ 0)
       then true else kernel_mask_set_mod_init s).
Proof.
  unfold pvfs2_init. run.
  destruct (bool_decide_reflect
    (valid_debug_mask K (to_u64 (module_parm_debug_mask s)) ≠ 0)); run.
  all: destruct (bool_decide_reflect (returns K bdi_init ≠ 0)); run;
    [split; reflexivity|].
  all: destruct (bool_decide_reflect (op_timeout_secs s < 0)); run.
  all: destruct (bool_decide_reflect (slot_timeout_secs s < 0)); run.
  all: match goal with
       | |- context [pvfs2_init_caches ?K0 ?s1] =>
           destruct (keeps_same_masks_pvfs2_init_caches K0 s1) as [-> ->]
       end; split; reflexivity.
Qed.

(** The clamping of the timeouts depends on [bdi_init] alone: once it has
    succeeded both timeouts are clamped at 0 and stay so even if a later
    step fails and [pvfs2_init] unwinds; if it fails they are left as the
    user set them. *)
Theorem pvfs2_init_clamps_once_bdi_is_up K s :
  exists ret s',
    pvfs2_init K s = Ok ret s' /\
    (returns K bdi_init = 0 ->
       op_timeout_secs s' = Z.max 0 (op_timeout_secs s) /\
       slot_timeout_secs s' = Z.max 0 (slot_timeout_secs s)) /\
    (returns K bdi_init <> 0 ->
       ret = returns K bdi_init /\ same_timeouts s s').
Proof.
  destruct (pvfs2_init_returns K s) as (ret & s' & E).
  exists ret, s'. split; [exact E|].
  destruct (pvfs2_init_run _ _ _ _ E)
    as (s1 & _ & _ & _ & _ & _ &
        [(Hb & -> & -> & Hop & Hslot)|(Hb & E1 & Hop & Hslot)]).
  - split; [intros; contradiction|]. intros _.
    split; [reflexivity|split; assumption].
  - split; [|intros; contradiction]. intros _.
    destruct (pvfs2_init_caches_returns K s1)
      as (r & s2 & _ & E2 & _ & _ & Hop2 & Hslot2 & _).
    rewrite E1 in E2. injection E2 as <- <-.
    rewrite Hop2, Hslot2. split; assumption.
Qed.

Lemma pvfs2_init_clamps_once_bdi_is_up_witness :
  exists s',
    pvfs2_init (kernel_failing register_filesystem (-16)) sample_load
      = Ok (-16) s' /\
    op_timeout_secs s' = 0 /\ slot_timeout_secs s' = 0.
Proof.
  destruct (pvfs2_init_clamps_once_bdi_is_up
              (kernel_failing register_filesystem (-16)) sample_load)
    as (ret & s' & E & Hclamp & _).
  assert (exists s1,
    pvfs2_init (kernel_failing register_filesystem (-16)) sample_load
      = Ok (-16) s1) as [s1 E1] by (eexists; vm_compute; reflexivity).
  rewrite E1 in E. injection E as <- <-.
  exists s1. split; [exact E1|]. apply Hclamp. reflexivity.
Defined.

(** Straight after a successful [pvfs2_init] the purge sweep is safe and
    finds nothing to do: it walks the [hash_table_size] empty chains, takes
    no lock, wakes nobody and leaves the table as it was. *)
Theorem purge_after_init_finds_nothing K s s1 :
  is_int (hash_table_size s) ->
  pvfs2_init K s = Ok 0 s1 ->
  exists s2 evs,
    purge_inprogress_ops s1 = Ok tt s2 /\
    trace s2 = trace s1 ++ evs /\
    walks evs = htable_bucket <$> seqZ 0 (hash_table_size s) /\
    locks_taken evs = [] /\
    wakeups evs = [] /\
    htable_ops_in_progress s2 = htable_ops_in_progress s1 /\
    table_ops s2 = [].
Proof.
  intros Hint E.
  destruct (pvfs2_init_table_ready _ _ _ Hint E) as [H0 Hready].
  assert (concat (replicate (Z.to_nat (hash_table_size s))
                    (@nil pvfs2_kernel_op_s)) = []) as Hempty.
  { clear. induction (Z.to_nat (hash_table_size s)); [reflexivity|assumption]. }
  assert (purged_chains (replicate (Z.to_nat (hash_table_size s)) [])
          = replicate (Z.to_nat (hash_table_size s)) []) as Hsame.
  { unfold purged_chains. rewrite fmap_replicate. reflexivity. }
  destruct (purge_inprogress_ops_outcome _ _ Hready)
    as (s2 & E2 & Ht & [Ht2 _] & _ & Hops & _).
  exists s2, (purge_log 0 (replicate (Z.to_nat (hash_table_size s)) [])).
  split; [exact E2|]. split; [exact Ht|].
  split; [rewrite walks_purge_log, length_replicate, Z2Nat.id by lia;
          reflexivity|].
  split; [rewrite locks_taken_purge_log, Hempty; reflexivity|].
  split; [rewrite wakeups_purge_log, Hempty; reflexivity|].
  split; [rewrite Ht2, Hsame; symmetry; apply Hready|].
  rewrite Hops, Hempty. reflexivity.
Qed.

Lemma purge_after_init_finds_nothing_witness :
  exists s1 s2,
    pvfs2_init kernel_ok sample_load = Ok 0 s1 /\
    purge_inprogress_ops s1 = Ok tt s2 /\
    htable_ops_in_progress s2 = htable_ops_in_progress s1.
Proof.
  assert (exists s1, pvfs2_init kernel_ok sample_load = Ok 0 s1)
    as [s1 E] by (eexists; vm_compute; reflexivity).
  destruct (purge_after_init_finds_nothing kernel_ok sample_load s1)
    as (s2 & evs & E2 & _ & _ & _ & _ & Ht & _).
  - unfold is_int. cbn. lia.
  - exact E.
  - exists s1, s2. split; [exact E|]. split; [exact E2|exact Ht].
Defined.

(** Sweeping twice: the second sweep finds each record where the first
    left it, leaves it [Purged] and wakes its waiter once more; tag, upcall
    and downcall of every record survive both sweeps. *)
Theorem purge_twice chains s :
  htable_is chains s ->
  exists s1 s2,
    purge_inprogress_ops s = Ok tt s1 /\
    purge_inprogress_ops s1 = Ok tt s2 /\
    htable_is (purged_chains (purged_chains chains)) s2 /\
    table_ops s2 =
      (fun op => mk_op (tag op) (upcall_type op) (downcall op) Purged
                   (2 + waitq_wakeups op)) <$> table_ops s /\
    op_state <$> table_ops s2 = op_state <$> table_ops s1.
Proof.
  intros H.
  destruct (purge_inprogress_ops_outcome _ _ H)
    as (s1 & E1 & _ & H1 & Hops & Hops1 & _).
  destruct (purge_inprogress_ops_outcome _ _ H1)
    as (s2 & E2 & _ & H2 & _ & Hops2 & _).
  exists s1, s2. split; [exact E1|]. split; [exact E2|].
  split; [exact H2|].
  rewrite Hops2, Hops1, Hops, concat_purged_chains.
  rewrite <- !list_fmap_compose. split; reflexivity.
Qed.

Lemma purge_twice_witness :
  exists s1 s2,
    purge_inprogress_ops sample_busy = Ok tt s1 /\
    purge_inprogress_ops s1 = Ok tt s2 /\
    table_ops s2 = [mk_op 7 1 None Purged 2; mk_op 10 1 None Purged 2].
Proof.
  destruct (purge_twice [[]; [op_7; op_10]; []] sample_busy)
    as (s1 & s2 & E1 & E2 & _ & Hops & _).
  - split; reflexivity.
  - exists s1, s2. split; [exact E1|]. split; [exact E2|exact Hops].
Defined.

#[global] Instance torn_down_quietly_preorder : PreOrder torn_down_quietly.
Proof.
  split.
  - intros s. exists []. rewrite app_nil_r.
    repeat split; auto; constructor.
  - intros s1 s2 s3 (evs1 & Ht1 & Hw1 & Hl1 & Hh1 & Hu1)
                    (evs2 & Ht2 & Hw2 & Hl2 & Hh2 & Hu2).
    exists (evs1 ++ evs2).
    split; [rewrite Ht2, Ht1, app_assoc; reflexivity|].
    split; [unfold wakeups in *; rewrite omap_app, Hw1, Hw2; reflexivity|].
    split; [unfold locks_taken in *; rewrite omap_app;
            apply Forall_app; split; assumption|].
    split; [|congruence].
    destruct Hh2 as [Hh2|Hh2]; [|right; exact Hh2].
    destruct Hh1 as [Hh1|Hh1]; [left|right]; congruence.
Qed.

Ltac quiet_step :=
  apply keeps_modify; intros ?;
  first
    [ exists []; cbn; rewrite app_nil_r;
      repeat split; auto; try constructor; fail
    | eexists [_]; cbn; repeat split; auto; repeat constructor; fail ].

Lemma keeps_quiet_htable_chain i : keeps torn_down_quietly (htable_chain i).
Proof. unfold htable_chain. frame_steps. Qed.

(** Teardown never wakes a waiter and never takes a per-operation lock,
    and it does not touch the records on the chains: however it ends, for
    every budget and every state, the only lock in its log is
    [pvfs2_request_list_lock] and the table is as it was or has been
    freed. *)
Theorem pvfs2_exit_wakes_nobody fuel s :
  exists evs,
    trace (final_state (pvfs2_exit fuel s)) = trace s ++ evs /\
    wakeups evs = [] /\
    Forall (fun l => l = pvfs2_request_list_lock) (locks_taken evs) /\
    (htable_ops_in_progress (final_state (pvfs2_exit fuel s))
       = htable_ops_in_progress s \/
     htable_ops_in_progress (final_state (pvfs2_exit fuel s)) = None) /\
    unlinked_ops (final_state (pvfs2_exit fuel s)) = unlinked_ops s.
Proof.
  revert s. change (keeps torn_down_quietly (pvfs2_exit fuel)).
  unfold pvfs2_exit, drain_request_list, drain_htable, drain_bucket,
    request_list_nonempty, release_request_list_head, bucket_nonempty,
    release_bucket_head, call_void, spin_lock, spin_unlock, emit,
    op_release, kfree_htable.
  frame_steps; first [apply keeps_quiet_htable_chain|quiet_step].
Qed.

(** Teardown comes to its end exactly from an empty table: with a
    well-formed table, some budget lets [pvfs2_exit] return if and only if
    no chain holds a record. *)
Theorem pvfs2_exit_finishes_iff_table_empty chains s :
  htable_is chains s ->
  (exists fuel s', pvfs2_exit fuel s = Ok tt s') <-> concat chains = [].
Proof.
  intros H. split.
  - intros (fuel & s' & E).
    destruct (decide (concat chains = [])) as [He|Hne]; [exact He|].
    destruct (pvfs2_exit_never_finishes fuel chains s H Hne) as (s'' & E' & _).
    rewrite E' in E. discriminate E.
  - intros He.
    destruct (pvfs2_exit_finishes_when_idle
                (S (length (pvfs2_request_list s))) chains s H He)
      as (s' & E & _); [lia|].
    exists (S (length (pvfs2_request_list s))), s'. exact E.
Qed.

Lemma pvfs2_exit_finishes_iff_table_empty_witness :
  (exists fuel s', pvfs2_exit fuel sample_idle = Ok tt s')
  <-> concat [[]; []; []] = @nil pvfs2_kernel_op_s.
Proof.
  apply pvfs2_exit_finishes_iff_table_empty. split; reflexivity.
Defined.

(** Sweeping first does not help teardown: [purge_inprogress_ops] marks
    and wakes the records of a table but leaves them on their chains, so
    [pvfs2_exit] after it still runs out of every budget. *)
Theorem purge_does_not_unblock_exit chains s :
  htable_is chains s -> concat chains <> [] ->
  exists s1,
    purge_inprogress_ops s = Ok tt s1 /\
    Forall (fun op => op_state op = Purged) (table_ops s1) /\
    forall fuel, exists s2,
      pvfs2_exit fuel s1 = Stop OutOfFuel s2 /\
      table_ops s2 = table_ops s1.
Proof.
  intros H Hne.
  destruct (purge_inprogress_ops_outcome _ _ H)
    as (s1 & E1 & _ & H1 & _ & Hops1 & _).
  exists s1. split; [exact E1|]. split.
  - rewrite Hops1. apply Forall_fmap, Forall_true. intros op. reflexivity.
  - intros fuel.
    destruct (pvfs2_exit_never_finishes fuel _ s1 H1) as (s2 & E2 & Ht).
    + rewrite concat_purged_chains. intros Hnil.
      apply fmap_nil_inv in Hnil. contradiction.
    + exists s2. split; [exact E2|]. unfold table_ops. rewrite Ht.
      reflexivity.
Qed.

Lemma purge_does_not_unblock_exit_witness :
  exists s1,
    purge_inprogress_ops sample_busy = Ok tt s1 /\
    forall fuel, exists s2, pvfs2_exit fuel s1 = Stop OutOfFuel s2.
Proof.
  destruct (purge_does_not_unblock_exit [[]; [op_7; op_10]; []] sample_busy)
    as (s1 & E1 & _ & Hspin).
  - split; reflexivity.
  - discriminate.
  - exists s1. split; [exact E1|]. intros fuel.
    destruct (Hspin fuel) as (s2 & E2 & _). exists s2. exact E2.
Defined.

(** Arithmetic with [/] and [mod]. *)
Ltac mod_lia := zify; Z.to_euclidean_division_equations; lia.

(** ** The display driver *)

Section fb_s1d15g00_facts.

Import fb_s1d15g00.

Lemma field_of_mask c lo width :
  0 <= lo -> 0 <= width ->
  Z.shiftr (Z.land c (Z.shiftl (Z.ones width) lo)) lo
    = (c / 2 ^ lo) mod 2 ^ width.
Proof.
  intros Hlo Hw.
  rewrite Z.shiftr_land, Z.shiftr_shiftl_l, Z.sub_diag, Z.shiftl_0_r by lia.
  rewrite Z.land_ones, Z.shiftr_div_pow2 by lia. reflexivity.
Qed.

(** Each colour channel comes out as four bits, whatever the pixel. *)
Lemma scale_in_range x m :
  0 < m -> 0 <= x <= m -> 0 <= (x * 15) ÷ m <= 15.
Proof.
  intros Hm Hx. rewrite Z.quot_div_nonneg by lia. split.
  - apply Z.div_pos; lia.
  - apply Z.div_le_upper_bound; lia.
Qed.

Lemma field_in_range c lo width :
  0 <= lo -> 0 <= width ->
  0 <= Z.shiftr (Z.land c (Z.shiftl (Z.ones width) lo)) lo <= 2 ^ width - 1.
Proof.
  intros Hlo Hw. rewrite field_of_mask by lia.
  pose proof (Z.mod_pos_bound (c / 2 ^ lo) (2 ^ width) ltac:(lia)). lia.
Qed.

Lemma RGB565_channels_in_range c :
  0 <= RGB565_R4 c <= 15 /\ 0 <= RGB565_G4 c <= 15 /\ 0 <= RGB565_B4 c <= 15.
Proof.
  unfold RGB565_R4, RGB565_G4, RGB565_B4. repeat split.
  all: apply scale_in_range; try lia.
  - apply (field_in_range c 11 5); lia.
  - apply (field_in_range c 11 5); lia.
  - apply (field_in_range c 5 6); lia.
  - apply (field_in_range c 5 6); lia.
  - apply (field_in_range c 0 5); lia.
  - apply (field_in_range c 0 5); lia.
Qed.

Lemma nibble_cases (P : Z -> Prop) :
  P 0 -> P 1 -> P 2 -> P 3 -> P 4 -> P 5 -> P 6 -> P 7 ->
  P 8 -> P 9 -> P 10 -> P 11 -> P 12 -> P 13 -> P 14 -> P 15 ->
  forall r, 0 <= r <= 15 -> P r.
Proof.
  intros. 
  assert (r = 0 \/ r = 1 \/ r = 2 \/ r = 3 \/ r = 4 \/ r = 5 \/ r = 6 \/ r = 7 \/
          r = 8 \/ r = 9 \/ r = 10 \/ r = 11 \/ r = 12 \/ r = 13 \/ r = 14 \/
          r = 15) as Hr by lia.
  repeat (destruct Hr as [-> | Hr]; [assumption|]). subst. assumption.
Qed.

Lemma lor_nibbles hi lo :
  0 <= hi <= 15 -> 0 <= lo <= 15 ->
  Z.lor (Z.lor 0x0100 (Z.shiftl hi 4)) lo = 0x100 + 16 * hi + lo.
Proof.
  intros Hhi Hlo. revert lo Hlo. 
  revert hi Hhi.
  apply (nibble_cases (fun hi => forall lo, 0 <= lo <= 15 -> Z.lor (Z.lor 0x0100 (Z.shiftl hi 4)) lo = 0x100 + 16 * hi + lo));
    apply nibble_cases; reflexivity.
Qed.

Lemma word_rg_eq p : word_rg p = 0x100 + 16 * RGB565_R4 p + RGB565_G4 p.
Proof.
  pose proof (RGB565_channels_in_range p) as (? & ? & ?).
  apply lor_nibbles; assumption.
Qed.

Lemma word_gb_eq p : word_gb p = 0x100 + 16 * RGB565_G4 p + RGB565_B4 p.
Proof.
  pose proof (RGB565_channels_in_range p) as (? & ? & ?).
  apply lor_nibbles; assumption.
Qed.

Lemma word_br_eq p q : word_br p q = 0x100 + 16 * RGB565_B4 p + RGB565_R4 q.
Proof.
  pose proof (RGB565_channels_in_range p) as (? & ? & ?).
  pose proof (RGB565_channels_in_range q) as (? & ? & ?).
  apply lor_nibbles; assumption.
Qed.

Lemma word_b_eq p : word_b p = 0x100 + 16 * RGB565_B4 p.
Proof.
  pose proof (RGB565_channels_in_range p) as (? & ? & ?).
  unfold word_b. rewrite <- (Z.lor_0_r (Z.lor _ _)).
  rewrite lor_nibbles by lia. lia.
Qed.

Lemma to_u16_small z : 0 <= z < 2 ^ 16 -> to_u16 z = z.
Proof. intros. unfold to_u16. apply Z.mod_small. assumption. Qed.

Lemma word_rg_u16 p : to_u16 (word_rg p) = word_rg p.
Proof.
  pose proof (RGB565_channels_in_range p) as (? & ? & ?).
  apply to_u16_small. rewrite word_rg_eq. lia.
Qed.
Lemma word_b_u16 p : to_u16 (word_b p) = word_b p.
Proof.
  pose proof (RGB565_channels_in_range p) as (? & ? & ?).
  apply to_u16_small. rewrite word_b_eq. lia.
Qed.
Lemma word_br_u16 p q : to_u16 (word_br p q) = word_br p q.
Proof.
  pose proof (RGB565_channels_in_range p) as (? & ? & ?).
  pose proof (RGB565_channels_in_range q) as (? & ? & ?).
  apply to_u16_small. rewrite word_br_eq. lia.
Qed.
Lemma word_gb_u16 p : to_u16 (word_gb p) = word_gb p.
Proof.
  pose proof (RGB565_channels_in_range p) as (? & ? & ?).
  apply to_u16_small. rewrite word_gb_eq. lia.
Qed.
Lemma word_g_u16 p :
  to_u16 (Z.lor 0x0100 (Z.shiftl (RGB565_G4 p) 4))
  = Z.lor 0x0100 (Z.shiftl (RGB565_G4 p) 4).
Proof.
  pose proof (RGB565_channels_in_range p) as (? & ? & ?).
  apply to_u16_small. rewrite <- (Z.lor_0_r (Z.lor _ _)).
  rewrite lor_nibbles by lia. lia.
Qed.
Lemma word_r_u16 p :
  to_u16 (Z.lor 0x0100 (Z.shiftl (RGB565_R4 p) 4))
  = Z.lor 0x0100 (Z.shiftl (RGB565_R4 p) 4).
Proof.
  pose proof (RGB565_channels_in_range p) as (? & ? & ?).
  apply to_u16_small. rewrite <- (Z.lor_0_r (Z.lor _ _)).
  rewrite lor_nibbles by lia. lia.
Qed.

Lemma store_at (n : nat) v tx :
  (n < length tx)%nat ->
  store (Z.of_nat n) v tx = Some (<[n := to_u16 v]> tx).
Proof.
  intros Hn. unfold store. rewrite bool_decide_eq_true_2 by lia.
  rewrite Nat2Z.id. reflexivity.
Qed.

Lemma or_store_at (n : nat) old v tx :
  (n < length tx)%nat ->
  or_store (Z.of_nat n) v (<[n := old]> tx)
  = Some (<[n := to_u16 (Z.lor old v)]> tx).
Proof.
  intros Hn. unfold or_store. rewrite bool_decide_eq_true_2 by lia.
  rewrite Nat2Z.id, list_lookup_insert_eq by assumption. cbn.
  rewrite store_at by (rewrite length_insert; assumption).
  rewrite list_insert_insert_eq. reflexivity.
Qed.

Lemma vmem_at_nat vmem16 (k : nat) : vmem_at vmem16 (Z.of_nat k) = vmem16 !! k.
Proof.
  unfold vmem_at. rewrite bool_decide_eq_true_2 by lia.
  rewrite Nat2Z.id. reflexivity.
Qed.

Lemma incr_at (n : nat) :
  Z.of_nat n < INT_MAX -> incr (Z.of_nat n) = Some (Z.of_nat (S n)).
Proof.
  intros Hn. unfold incr. rewrite bool_decide_eq_true_2 by assumption.
  f_equal. lia.
Qed.

Ltac store_step :=
  first [rewrite store_at by (rewrite ?length_insert; lia)
        |rewrite or_store_at by (rewrite ?length_insert; lia)];
  cbn [mbind option_bind];
  change (to_u16 256) with 256.

Ltac incr_step n := rewrite (incr_at n) by lia; cbn [mbind option_bind].

Lemma convert_pixels_last vmem16 len (n k : nat) p tx :
  vmem16 !! k = Some p ->
  Z.of_nat (S k) >= len / 2 ->
  (S n < length tx)%nat ->
  Z.of_nat (S (S n)) <= INT_MAX -> Z.of_nat (S k) <= INT_MAX ->
  convert_pixels vmem16 len (mk_cursor (Z.of_nat n) (Z.of_nat k) tx)
  = Some (mk_cursor (Z.of_nat (S (S n))) (Z.of_nat (S k))
            (<[S n := word_b p]> (<[n := word_rg p]> tx)), true).
Proof.
  intros Hp Hk Hn Hi Hj. unfold convert_pixels. cbn [cur_i cur_j txbuf16].
  rewrite vmem_at_nat, Hp. cbn [mbind option_bind].
  store_step. store_step. rewrite word_r_u16.
  store_step. fold (word_rg p). rewrite word_rg_u16.
  incr_step n. store_step. store_step. fold (word_b p). rewrite word_b_u16.
  incr_step k.
  rewrite bool_decide_eq_true_2 by lia.
  incr_step (S n). reflexivity.
Qed.

Lemma convert_pixels_pair vmem16 len (n k : nat) p q tx :
  vmem16 !! k = Some p ->
  vmem16 !! S k = Some q ->
  Z.of_nat (S k) < len / 2 ->
  (S (S n) < length tx)%nat ->
  Z.of_nat (S (S (S n))) <= INT_MAX -> Z.of_nat (S (S k)) <= INT_MAX ->
  convert_pixels vmem16 len (mk_cursor (Z.of_nat n) (Z.of_nat k) tx)
  = Some (mk_cursor (Z.of_nat (S (S (S n)))) (Z.of_nat (S (S k)))
            (<[S (S n) := word_gb q]>
               (<[S n := word_br p q]> (<[n := word_rg p]> tx))),
          bool_decide (Z.of_nat (S (S k)) >= len / 2)).
Proof.
  intros Hp Hq Hk Hn Hi Hj. unfold convert_pixels. cbn [cur_i cur_j txbuf16].
  rewrite vmem_at_nat, Hp. cbn [mbind option_bind].
  store_step. store_step. rewrite word_r_u16.
  store_step. fold (word_rg p). rewrite word_rg_u16.
  incr_step n. store_step. store_step. fold (word_b p). rewrite word_b_u16.
  incr_step k.
  rewrite bool_decide_eq_false_2 by lia.
  rewrite vmem_at_nat, Hq. cbn [mbind option_bind].
  store_step. fold (word_br p q). rewrite word_br_u16.
  incr_step (S n). store_step. store_step. rewrite word_g_u16.
  store_step. fold (word_gb q). rewrite word_gb_u16.
  incr_step (S (S n)). incr_step (S k). reflexivity.
Qed.

Lemma take_two {A} (n : nat) (a b : A) tx :
  (S n < length tx)%nat ->
  take (S (S n)) (<[S n := b]> (<[n := a]> tx)) = take n tx ++ [a; b].
Proof.
  intros Hn.
  rewrite (take_S_r _ _ b)
    by (apply list_lookup_insert_eq; rewrite length_insert; lia).
  rewrite take_insert_ge by lia.
  rewrite (take_S_r _ _ a) by (apply list_lookup_insert_eq; lia).
  rewrite take_insert_ge by lia.
  rewrite <- app_assoc. reflexivity.
Qed.

Lemma take_three {A} (n : nat) (a b c : A) tx :
  (S (S n) < length tx)%nat ->
  take (S (S (S n))) (<[S (S n) := c]> (<[S n := b]> (<[n := a]> tx)))
  = take n tx ++ [a; b; c].
Proof.
  intros Hn.
  rewrite (take_S_r _ _ c)
    by (apply list_lookup_insert_eq; rewrite !length_insert; lia).
  rewrite take_insert_ge by lia.
  rewrite take_two by lia.
  rewrite <- app_assoc. reflexivity.
Qed.

Section convert.

Variable vmem16 : list Z.
Variables txbuf_len len : Z.
Variables P B : nat.
Hypothesis HP : len / 2 = Z.of_nat P.
Hypothesis HB : buf_len txbuf_len / 2 = Z.of_nat B.
Hypothesis Hvmem : (P <= length vmem16)%nat.
Hypothesis HPmax : Z.of_nat P <= INT_MAX.
Hypothesis HBmax : Z.of_nat B <= INT_MAX.

Lemma convert_chunk_spec (m : nat) : forall (n k : nat) tx fuel,
  (n + 3 * m = B)%nat ->
  (B <= length tx)%nat ->
  (k < P)%nat ->
  (P - k <= fuel)%nat ->
  exists (i' j' : nat) tx',
    convert_chunk vmem16 txbuf_len len fuel
      (mk_cursor (Z.of_nat n) (Z.of_nat k) tx)
    = Done (mk_cursor (Z.of_nat i') (Z.of_nat j') tx') /\
    length tx' = length tx /\
    (k <= j' <= P)%nat /\
    (0 < m -> k < j')%nat /\
    (n <= i' <= B)%nat /\
    take i' tx' = take n tx ++ pack (take (j' - k) (drop k vmem16)) /\
    (j' < P -> i' = B /\ j' = k + 2 * m)%nat.
Proof.
  induction m as [|m IH]; intros n k tx fuel Hn Htx Hk Hfuel.
  - exists n, k, tx.
    assert (convert_chunk vmem16 txbuf_len len fuel
              (mk_cursor (Z.of_nat n) (Z.of_nat k) tx)
            = Done (mk_cursor (Z.of_nat n) (Z.of_nat k) tx)) as ->.
    { destruct fuel; cbn [convert_chunk cur_i];
        rewrite HB, bool_decide_eq_false_2 by lia; reflexivity. }
    rewrite Nat.sub_diag. cbn [take pack]. rewrite app_nil_r.
    repeat split; lia.
  - destruct fuel as [|fuel]; [lia|].
    cbn [convert_chunk cur_i]. rewrite HB, bool_decide_eq_true_2 by lia.
    destruct (lookup_lt_is_Some_2 vmem16 k ltac:(lia)) as [p Hp].
    rewrite (drop_S _ _ _ Hp).
    destruct (decide (S k = P)) as [Hlast|Hmore].
    + rewrite (convert_pixels_last _ _ _ _ p) by (assumption || lia).
      exists (S (S n)), (S k), (<[S n := word_b p]> (<[n := word_rg p]> tx)).
      replace (S k - k)%nat with 1%nat by lia. cbn [take pack].
      rewrite take_two by lia. rewrite !length_insert.
      repeat split; try lia.
    + destruct (lookup_lt_is_Some_2 vmem16 (S k) ltac:(lia)) as [q Hq].
      rewrite (drop_S _ _ _ Hq).
      rewrite (convert_pixels_pair _ _ _ _ p q) by (assumption || lia).
      set (tx' := <[S (S n) := word_gb q]>
                    (<[S n := word_br p q]> (<[n := word_rg p]> tx))).
      assert (length tx' = length tx) as Hlen'
        by (unfold tx'; rewrite !length_insert; reflexivity).
      assert (take (S (S (S n))) tx'
              = take n tx ++ [word_rg p; word_br p q; word_gb q]) as Htake
        by (apply take_three; lia).
      destruct (decide (S (S k) = P)) as [Hlast|Hmore'].
      * rewrite bool_decide_eq_true_2 by lia.
        exists (S (S (S n))), (S (S k)), tx'.
        replace (S (S k) - k)%nat with 2%nat by lia. cbn [take pack].
        rewrite Htake.
        repeat split; try lia.
      * rewrite bool_decide_eq_false_2 by lia.
        destruct (IH (S (S (S n))) (S (S k)) tx' fuel)
          as (i' & j' & tx'' & -> & Hlen'' & Hj & Hjm & Hi & Htake' & Hfull);
          try lia.
        exists i', j', tx''.
        replace (j' - k)%nat with (S (S (j' - S (S k)))) by lia.
        cbn [take pack]. rewrite Htake', Htake, <- app_assoc.
        repeat split; try lia; try reflexivity.
        all: intros Hlt; destruct (Hfull Hlt); lia.
Qed.

End convert.

Lemma fill_nop_spec (d : nat) : forall (n k : nat) tx fuel,
  Z.of_nat d = (- Z.of_nat n) mod 4 ->
  (n + d <= length tx)%nat ->
  Z.of_nat (n + d) <= INT_MAX ->
  (d <= fuel)%nat ->
  exists tx',
    fill_nop fuel (mk_cursor (Z.of_nat n) (Z.of_nat k) tx)
    = Done (mk_cursor (Z.of_nat (n + d)) (Z.of_nat k) tx') /\
    length tx' = length tx /\
    take (n + d) tx' = take n tx ++ replicate d 0.
Proof.
  induction d as [|d IH]; intros n k tx fuel Hd Htx Hmax Hfuel.
  - exists tx. rewrite Nat.add_0_r. cbn [replicate]. rewrite app_nil_r.
    split; [|split; reflexivity].
    destruct fuel; cbn [fill_nop cur_i];
      rewrite Z.rem_mod_nonneg, bool_decide_eq_false_2 by mod_lia;
      reflexivity.
  - destruct fuel as [|fuel]; [lia|].
    cbn [fill_nop cur_i cur_j txbuf16].
    rewrite Z.rem_mod_nonneg, bool_decide_eq_true_2 by mod_lia.
    rewrite store_at by lia. change (to_u16 0) with 0.
    cbn [mbind option_bind]. incr_step n.
    destruct (IH (S n) k (<[n := 0]> tx) fuel) as (tx' & -> & Hlen & Htake);
      try (rewrite ?length_insert; mod_lia).
    exists tx'. rewrite length_insert in Hlen.
    replace (n + S d)%nat with (S n + d)%nat by lia.
    split; [reflexivity|]. split; [assumption|].
    rewrite Htake.
    rewrite (take_S_r _ _ 0) by (apply list_lookup_insert_eq; lia).
    rewrite take_insert_ge by lia.
    rewrite <- app_assoc. reflexivity.
Qed.

Lemma pack_app_even (h : nat) : forall l1 l2,
  length l1 = (2 * h)%nat -> pack (l1 ++ l2) = pack l1 ++ pack l2.
Proof.
  induction h as [|h IH]; intros l1 l2 Hlen.
  - destruct l1; [reflexivity|cbn in Hlen; lia].
  - destruct l1 as [|p [|q l1]]; cbn in Hlen; try lia.
    cbn [app pack]. rewrite (IH l1 l2) by lia. reflexivity.
Qed.

Lemma pack_length_cons p l : (2 <= length (pack (p :: l)))%nat.
Proof. destruct l; cbn; lia. Qed.

Lemma pixels_app (l : list Z) (k j1 j2 : nat) :
  (k <= j1 <= j2)%nat ->
  take (j1 - k) (drop k l) ++ take (j2 - j1) (drop j1 l)
  = take (j2 - k) (drop k l).
Proof.
  intros H.
  replace (drop j1 l) with (drop (j1 - k) (drop k l))
    by (rewrite drop_drop; f_equal; lia).
  rewrite take_take_drop. f_equal. lia.
Qed.

Section chunks.

Variable write : nat -> list Z -> Z.
Variable vmem16 : list Z.
Variables txbuf_len len : Z.
Variables P b : nat.
Hypothesis HP : len / 2 = Z.of_nat P.
Hypothesis HB : buf_len txbuf_len / 2 = Z.of_nat (12 * b).
Hypothesis Hb : (0 < b)%nat.
Hypothesis Hvmem : (P <= length vmem16)%nat.
Hypothesis HPmax : Z.of_nat P <= INT_MAX.
Hypothesis HBmax : 2 * Z.of_nat (12 * b) <= INT_MAX.

(** One turn of the outer loop, up to the call of [write]. *)
Lemma one_chunk (k : nat) tx fuel :
  (12 * b <= length tx)%nat ->
  (k < P)%nat ->
  (P - k + 3 <= fuel)%nat ->
  exists c1 (i j' pad : nat) tx',
    convert_chunk vmem16 txbuf_len len fuel
      (mk_cursor 0 (Z.of_nat k) tx) = Done c1 /\
    (if bool_decide (cur_j c1 >= len / 2) then fill_nop fuel c1 else Done c1)
    = Done (mk_cursor (Z.of_nat i) (Z.of_nat j') tx') /\
    length tx' = length tx /\
    (k < j' <= P)%nat /\
    (0 < i <= 12 * b)%nat /\ Nat.divide 4 i /\
    (pad < 4)%nat /\
    take i tx'
    = pack (take (j' - k) (drop k vmem16)) ++ replicate pad 0 /\
    (j' < P -> pad = 0 /\ j' = k + 8 * b /\ i = 12 * b)%nat.
Proof.
  intros Htx Hk Hfuel.
  destruct (convert_chunk_spec vmem16 txbuf_len len P (12 * b) HP HB Hvmem
              HPmax ltac:(lia) (4 * b) 0 k tx fuel)
    as (i' & j' & tx1 & Hrun & Hlen1 & Hj & Hjk & Hi & Htake & Hfull);
    try lia.
  change (Z.of_nat 0) with 0 in Hrun. rewrite Hrun.
  rewrite take_0, app_nil_l in Htake.
  assert (2 <= i')%nat as Hi2.
  { apply (f_equal length) in Htake.
    rewrite length_take_le in Htake by lia. rewrite Htake.
    destruct (lookup_lt_is_Some_2 vmem16 k ltac:(lia)) as [p Hp].
    rewrite (drop_S _ _ _ Hp).
    replace (j' - k)%nat with (S (j' - S k)) by lia. cbn [take].
    apply pack_length_cons. }
  exists (mk_cursor (Z.of_nat i') (Z.of_nat j') tx1). cbn [cur_j].
  destruct (decide (j' < P)%nat) as [Hlt|Hge].
  - destruct (Hfull Hlt) as [-> ->].
    exists (12 * b)%nat, (k + 2 * (4 * b))%nat, 0%nat, tx1.
    rewrite bool_decide_eq_false_2 by lia.
    cbn [replicate]. rewrite app_nil_r.
    repeat split; try assumption; try lia.
    exists (3 * b)%nat. lia.
  - rewrite bool_decide_eq_true_2 by lia.
    set (d := Z.to_nat ((- Z.of_nat i') mod 4)).
    assert (Z.of_nat d = (- Z.of_nat i') mod 4) as Hd
      by (unfold d; mod_lia).
    assert (d < 4)%nat by mod_lia.
    assert (Nat.divide 4 (i' + d)) as Hmod
      by (exists (Z.to_nat ((Z.of_nat i' + Z.of_nat d) / 4)); mod_lia).
    assert (i' + d <= 12 * b)%nat as Hle by mod_lia.
    destruct (fill_nop_spec d i' j' tx1 fuel) as (tx2 & -> & Hlen2 & Htake2);
      try lia.
    exists (i' + d)%nat, j', d, tx2.
    rewrite Htake2, Htake.
    repeat split; try lia; try reflexivity; try assumption.
Qed.

Lemma send_chunks_spec (fuel : nat) : forall calls (k : nat) tx sent ret,
  (k <= P)%nat ->
  (12 * b <= length tx)%nat ->
  (P - k + 3 <= fuel)%nat ->
  exists ret' chunks (j' pad : nat),
    send_chunks write vmem16 txbuf_len len fuel calls (Z.of_nat k) tx sent ret
    = Done (ret', sent ++ chunks) /\
    Forall (fun ch => (0 < length ch <= 12 * b)%nat /\ Nat.divide 4 (length ch))
      chunks /\
    (forall i ch, chunks !! i = Some ch -> (S i < length chunks)%nat ->
       0 <= write (calls + i)%nat ch /\ length ch = (12 * b)%nat) /\
    (k = P <-> chunks = []) /\
    (chunks = [] -> ret' = ret) /\
    (forall ch, last chunks = Some ch ->
       ret' = write (calls + length chunks - 1)%nat ch) /\
    (k <= j' <= P)%nat /\ (pad < 4)%nat /\
    concat chunks
    = pack (take (j' - k) (drop k vmem16)) ++ replicate pad 0 /\
    ((j' < P)%nat -> pad = 0%nat /\ ret' < 0 /\ chunks <> []).
Proof.
  induction fuel as [|fuel IH]; intros calls k tx sent ret Hk Htx Hfuel.
  { lia. }
  cbn [send_chunks]. rewrite HP.
  destruct (decide (k = P)) as [->|Hne].
  { rewrite bool_decide_eq_false_2 by lia.
    exists ret, [], P, 0%nat. rewrite app_nil_r, Nat.sub_diag.
    repeat split; try (reflexivity || lia || constructor || discriminate). }
  rewrite bool_decide_eq_true_2 by lia.
  destruct (one_chunk k tx (S fuel))
    as (c1 & i & j1 & pad1 & tx1 & -> & Hfill & Hlen1 & Hj1 & Hi & Hdiv
        & Hpad1 & Htake & Hfull); try lia.
  rewrite <- HP, Hfill. cbn [cur_i cur_j txbuf16]. rewrite Nat2Z.id.
  rewrite (bool_decide_eq_true_2 (Z.of_nat i * 2 <= INT_MAX)) by lia.
  set (data := take i tx1).
  assert (length data = i) as Hdata
    by (unfold data; rewrite length_take_le; lia).
  destruct (decide (write calls data < 0)) as [Hfail|Hok].
  { rewrite bool_decide_eq_true_2 by assumption.
    exists (write calls data), [data], j1, pad1.
    cbn [concat length]. rewrite app_nil_r.
    repeat split; try (lia || assumption || discriminate).
    - constructor; [|constructor]. rewrite Hdata. split; [lia|assumption].
    - intros ch [= <-]. f_equal. lia. }
  rewrite bool_decide_eq_false_2 by assumption.
  destruct (IH (S calls) j1 tx1 (sent ++ [data]) (write calls data))
    as (ret' & chunks & j2 & pad2 & -> & Hall & Hpos & Hnil & Hret & Hlast
        & Hj2 & Hpad2 & Hcat & Hstop); try lia.
  rewrite <- app_assoc. cbn [app].
  destruct (decide (j1 = P)) as [Hend|Hmid].
  - assert (chunks = []) as -> by (apply Hnil; assumption).
    exists ret', [data], j1, pad1.
    cbn [concat length]. rewrite app_nil_r.
    repeat split; try (lia || assumption || discriminate).
    + constructor; [|constructor]. rewrite Hdata. split; [lia|assumption].
    + intros ch [= <-]. rewrite Hret by reflexivity. f_equal. lia.
  - destruct (Hfull ltac:(lia)) as (-> & Hj1' & Hi12).
    assert (forall i0 ch, (data :: chunks) !! i0 = Some ch ->
              (S i0 < S (length chunks))%nat ->
              0 <= write (calls + i0)%nat ch /\ length ch = (12 * b)%nat)
      as Hpos'.
    { intros [|i0] ch Hi0 Hlt; cbn in Hi0.
      - injection Hi0 as <-. rewrite Nat.add_0_r. split; lia.
      - replace (calls + S i0)%nat with (S calls + i0)%nat by lia.
        apply Hpos; [assumption|lia]. }
    exists ret', (data :: chunks), j2, pad2.
    cbn [concat length]. fold data in Htake.
    repeat split;
      try (lia || assumption || discriminate || (eapply Hpos'; eassumption)).
    + constructor; [|assumption]. rewrite Hdata. split; [lia|assumption].
    + intros ch Hch. destruct chunks as [|ch' chunks'].
      * exfalso. apply Hmid, Hnil. reflexivity.
      * replace (calls + S (length (ch' :: chunks')) - 1)%nat
          with (S calls + length (ch' :: chunks') - 1)%nat by lia.
        apply Hlast. exact Hch.
    + rewrite Htake, Hcat. cbn [replicate]. rewrite app_nil_r, app_assoc.
      rewrite <- (pack_app_even (4 * b))
        by (rewrite length_take_le; [lia|rewrite length_drop; lia]).
      rewrite pixels_app by lia. reflexivity.
Qed.

End chunks.

Lemma buffer_words txbuf_len :
  24 <= txbuf_len ->
  buf_len txbuf_len / 2 = Z.of_nat (12 * Z.to_nat (txbuf_len / 24)) /\
  (0 < Z.to_nat (txbuf_len / 24))%nat.
Proof. intros H. unfold buf_len. split; mod_lia. Qed.

Lemma write_vmem16_bus9_run write vmem16 txbuf_len len tx fuel :
  0 <= len / 2 <= INT_MAX -> 24 <= txbuf_len <= INT_MAX ->
  len <= 2 * Z.of_nat (length vmem16) ->
  txbuf_len <= 2 * Z.of_nat (length tx) ->
  (Z.to_nat (len / 2) + 3 <= fuel)%nat ->
  exists ret chunks (n pad : nat),
    write_vmem16_bus9 write vmem16 txbuf_len len fuel (Some tx)
    = Done (ret, chunks) /\
    Forall (fun ch => (0 < length ch)%nat /\
                      2 * Z.of_nat (length ch) <= buf_len txbuf_len /\
                      Nat.divide 4 (length ch)) chunks /\
    (forall i ch, chunks !! i = Some ch -> (S i < length chunks)%nat ->
       0 <= write i ch /\
       2 * Z.of_nat (length ch) = buf_len txbuf_len) /\
    (chunks = [] -> ret = 0) /\
    (forall ch, last chunks = Some ch ->
       ret = write (length chunks - 1)%nat ch) /\
    (n <= Z.to_nat (len / 2))%nat /\ (pad < 4)%nat /\
    concat chunks = pack (take n vmem16) ++ replicate pad 0 /\
    ((n < Z.to_nat (len / 2))%nat -> pad = 0%nat /\ ret < 0).
Proof.
  intros [Hlen Hlenmax] [Htxlen Htxmax] Hvmem Htx Hfuel.
  destruct (buffer_words txbuf_len Htxlen) as [HB Hb].
  set (b := Z.to_nat (txbuf_len / 24)) in *.
  set (P := Z.to_nat (len / 2)) in *.
  assert (len / 2 = Z.of_nat P) as HP by (unfold P; mod_lia).
  destruct (send_chunks_spec write vmem16 txbuf_len len P b HP HB Hb
              ltac:(mod_lia) ltac:(lia) ltac:(unfold b; mod_lia)
              fuel 0%nat 0%nat tx [] 0)
    as (ret & chunks & n & pad & Hrun & Hall & Hpos & Hnil & Hret & Hlast
        & Hn & Hpad & Hcat & Hstop); try (unfold b; mod_lia).
  exists ret, chunks, n, pad. cbn [write_vmem16_bus9].
  change (Z.of_nat 0) with 0 in Hrun. rewrite Hrun.
  rewrite Nat.sub_0_r, drop_0 in Hcat.
  assert (buf_len txbuf_len = 2 * Z.of_nat (12 * b)) as Hbuf
    by (unfold buf_len, b; mod_lia).
  split; [reflexivity|]. split.
  { eapply Forall_impl; [exact Hall|]. cbn. intros ch [Hle Hdiv].
    repeat split; try (assumption || lia). }
  split.
  { intros i ch Hi Hlt. destruct (Hpos i ch Hi Hlt) as [Hw Hfull].
    split; [exact Hw|]. rewrite Hfull. lia. }
  repeat split; try (assumption || lia).
Qed.

Lemma send_chunks_spins write vmem16 txbuf_len len tx (fuel : nat) :
  0 <= txbuf_len < 24 -> 2 <= len ->
  (forall k, 0 <= write k []) ->
  forall calls sent ret,
    send_chunks write vmem16 txbuf_len len fuel calls 0 tx sent ret
    = Halt OutOfFuel.
Proof.
  intros Htx Hlen Hw.
  assert (buf_len txbuf_len / 2 = 0) as HB by (unfold buf_len; mod_lia).
  assert (0 < len / 2) as HP by mod_lia.
  induction fuel as [|fuel IH]; intros calls sent ret; cbn [send_chunks];
    rewrite bool_decide_eq_true_2 by lia; [reflexivity|].
  cbn [convert_chunk cur_i]. rewrite HB.
  rewrite (bool_decide_eq_false_2 (0 < 0)) by lia.
  cbn [cur_i cur_j txbuf16].
  rewrite (bool_decide_eq_false_2 (0 >= len / 2)) by lia.
  cbn [cur_i cur_j txbuf16].
  rewrite (bool_decide_eq_true_2 (0 * 2 <= INT_MAX))
    by (vm_compute; discriminate).
  change (take (Z.to_nat 0) tx) with (@nil Z).
  rewrite bool_decide_eq_false_2 by (specialize (Hw calls); lia).
  apply IH.
Qed.

(** The colour channels the macros compute fit four bits for every value
    of [c], so the [|=] of the loop body never carries one field into the
    next: each word put in the buffer for a pixel is the data flag 0x100,
    one channel in bits 7..4 and one in bits 3..0. *)
Theorem pixel_words_layout p q :
  (0 <= RGB565_R4 p <= 15 /\ 0 <= RGB565_G4 p <= 15 /\
   0 <= RGB565_B4 p <= 15) /\
  word_rg p = 0x100 + 16 * RGB565_R4 p + RGB565_G4 p /\
  word_br p q = 0x100 + 16 * RGB565_B4 p + RGB565_R4 q /\
  word_gb q = 0x100 + 16 * RGB565_G4 q + RGB565_B4 q /\
  word_b p = 0x100 + 16 * RGB565_B4 p.
Proof.
  split; [apply RGB565_channels_in_range|].
  split; [apply word_rg_eq|]. split; [apply word_br_eq|].
  split; [apply word_gb_eq|apply word_b_eq].
Qed.

(** With a transmit buffer of at least 24 bytes, video memory of at least
    [len] bytes, sizes that [i] and [j] can count, and a [write] that never
    fails, [write_vmem16_bus9] returns without storing outside the buffer,
    reading outside the memory or overflowing an [int].  What
    it handed to [write], taken together, is the [len / 2] pixels packed two
    to three words, followed by fewer than four words 0x0000; every call
    carries a positive multiple of four words that fits [buf_len], and
    every call but the last all of [buf_len]; the value returned is not
    negative. *)
Theorem write_vmem16_bus9_sends_packed_pixels
    write vmem16 txbuf_len len tx fuel :
  0 <= len / 2 <= INT_MAX -> 24 <= txbuf_len <= INT_MAX ->
  len <= 2 * Z.of_nat (length vmem16) ->
  txbuf_len <= 2 * Z.of_nat (length tx) ->
  (forall k data, 0 <= write k data) ->
  (Z.to_nat (len / 2) + 3 <= fuel)%nat ->
  exists ret chunks (pad : nat),
    write_vmem16_bus9 write vmem16 txbuf_len len fuel (Some tx)
    = Done (ret, chunks) /\
    concat chunks
    = pack (take (Z.to_nat (len / 2)) vmem16) ++ replicate pad 0x0000 /\
    (pad < 4)%nat /\
    Forall (fun ch => (0 < length ch)%nat /\
                      2 * Z.of_nat (length ch) <= buf_len txbuf_len /\
                      Nat.divide 4 (length ch)) chunks /\
    (forall i ch, chunks !! i = Some ch -> (S i < length chunks)%nat ->
       2 * Z.of_nat (length ch) = buf_len txbuf_len) /\
    0 <= ret.
Proof.
  intros Hlen Htxlen Hvmem Htx Hw Hfuel.
  destruct (write_vmem16_bus9_run write vmem16 txbuf_len len tx fuel)
    as (ret & chunks & n & pad & Hrun & Hall & Hfull & Hnil & Hlast & Hn
        & Hpad & Hcat & Hstop); try assumption.
  assert (0 <= ret) as Hret.
  { destruct (last chunks) as [ch|] eqn:E.
    - rewrite (Hlast ch eq_refl). apply Hw.
    - apply last_None in E. rewrite (Hnil E). lia. }
  assert (n = Z.to_nat (len / 2)) as -> by lia.
  exists ret, chunks, pad.
  repeat split; try assumption.
  eapply Hfull; eassumption.
Qed.

Lemma write_vmem16_bus9_sends_packed_pixels_witness :
  exists ret chunks (pad : nat),
    write_vmem16_bus9 (fun _ _ => 0) [0xFFFF; 0x0000; 0xF800] 24 6 6
      (Some (replicate 12 0))
    = Done (ret, chunks) /\
    concat chunks = pack [0xFFFF; 0x0000; 0xF800] ++ replicate pad 0 /\
    (pad < 4)%nat.
Proof.
  destruct (write_vmem16_bus9_sends_packed_pixels
              (fun _ _ => 0) [0xFFFF; 0x0000; 0xF800] 24 6
              (replicate 12 0) 6)
    as (ret & chunks & pad & Hrun & Hcat & Hpad & _).
  - vm_compute. split; discriminate.
  - vm_compute. split; discriminate.
  - cbn. lia.
  - cbn. lia.
  - intros. lia.
  - vm_compute. lia.
  - exists ret, chunks, pad. split; [exact Hrun|]. split; [exact Hcat|exact Hpad].
Defined.

(** Whatever the sizes and the budget, a run of the outer loop that
    returns has made no call of [write] after one that failed, and returns
    the answer of the last call it made, or the value it started with when
    it made none. *)
Lemma send_chunks_returns write vmem16 txbuf_len len (fuel : nat) :
  forall calls j tx sent ret ret' out,
    send_chunks write vmem16 txbuf_len len fuel calls j tx sent ret
    = Done (ret', out) ->
    exists chunks,
      out = sent ++ chunks /\
      (forall i ch, chunks !! i = Some ch -> write (calls + i)%nat ch < 0 ->
         S i = length chunks) /\
      (chunks = [] -> ret' = ret) /\
      (forall ch, last chunks = Some ch ->
         ret' = write (calls + length chunks - 1)%nat ch).
Proof.
  induction fuel as [|fuel IH]; intros calls j tx sent ret ret' out;
    cbn [send_chunks]; case_bool_decide as Hj; try discriminate.
  1,3: intros E; simplify_eq; exists []; rewrite app_nil_r;
       split; [reflexivity|]; split; [intros i ch Hi; inversion Hi|];
       split; [intros _; reflexivity|intros ch Hch; inversion Hch].
  destruct (convert_chunk _ _ _ _ _) as [c1|]; [|discriminate].
  destruct (if bool_decide (cur_j c1 >= len / 2) then _ else _) as [c|];
    [|discriminate].
  case_bool_decide as Hmax; [|discriminate].
  set (data := take (Z.to_nat (cur_i c)) (txbuf16 c)).
  case_bool_decide as Hneg.
  - intros E. simplify_eq. exists [data].
    split; [reflexivity|]. split; [|split; [discriminate|]].
    + intros [|i] ch Hi _; [reflexivity|inversion Hi].
    + intros ch [= <-]. cbn. f_equal. lia.
  - intros E. destruct (IH _ _ _ _ _ _ _ E)
      as (chunks & -> & Hfail & Hnil & Hlast).
    exists (data :: chunks). rewrite <- app_assoc.
    split; [reflexivity|]. split; [|split; [discriminate|]].
    + intros [|i] ch Hi Hlt; cbn in Hi.
      * injection Hi as <-. rewrite Nat.add_0_r in Hlt. contradiction.
      * cbn [length]. f_equal. apply (Hfail i ch Hi).
        replace (S calls + i)%nat with (calls + S i)%nat by lia. exact Hlt.
    + intros ch Hch. destruct chunks as [|ch' chunks'].
      * injection Hch as <-. rewrite (Hnil eq_refl). cbn. f_equal. lia.
      * replace (calls + length (data :: ch' :: chunks') - 1)%nat
          with (S calls + length (ch' :: chunks') - 1)%nat by (cbn; lia).
        apply Hlast. exact Hch.
Qed.

(** [write_vmem16_bus9] returns a negative value in two ways only.  For a
    [NULL] buffer it returns -1 at once, with no call of [write].
    Otherwise a negative value is the answer of a call of [write] that
    failed, and that call is the last one made: this holds of every run
    that returns, whatever the sizes.  With a buffer of at least 24 bytes
    and memory of at least [len] bytes it does return, and what it has
    sent until then is the packed stream of the first pixels. *)
Theorem write_vmem16_bus9_stops_at_failed_write write vmem16 txbuf_len len :
  (forall fuel,
     write_vmem16_bus9 write vmem16 txbuf_len len fuel None
     = Done (-1, [])) /\
  (forall fuel tx ret chunks,
     write_vmem16_bus9 write vmem16 txbuf_len len fuel (Some tx)
     = Done (ret, chunks) ->
     (forall i ch, chunks !! i = Some ch -> write i ch < 0 ->
        S i = length chunks /\ ret = write i ch) /\
     (chunks = [] -> ret = 0) /\
     (ret < 0 -> exists ch, last chunks = Some ch /\
                   ret = write (length chunks - 1)%nat ch)) /\
  (forall fuel tx,
     0 <= len / 2 <= INT_MAX -> 24 <= txbuf_len <= INT_MAX ->
     len <= 2 * Z.of_nat (length vmem16) ->
     txbuf_len <= 2 * Z.of_nat (length tx) ->
     (Z.to_nat (len / 2) + 3 <= fuel)%nat ->
     exists ret chunks (n pad : nat),
       write_vmem16_bus9 write vmem16 txbuf_len len fuel (Some tx)
       = Done (ret, chunks) /\
       (n <= Z.to_nat (len / 2))%nat /\
       concat chunks = pack (take n vmem16) ++ replicate pad 0x0000 /\
       (0 <= ret -> n = Z.to_nat (len / 2))).
Proof.
  split; [reflexivity|]. split.
  - intros fuel tx ret chunks E. cbn [write_vmem16_bus9] in E.
    destruct (send_chunks_returns _ _ _ _ _ _ _ _ _ _ _ _ E)
      as (chunks' & Hout & Hfail & Hnil & Hlast).
    cbn [app] in Hout. subst chunks'. cbn [Nat.add] in Hfail, Hlast.
    assert (forall ch, last chunks = Some ch ->
              ret = write (length chunks - 1)%nat ch) as Hlast'.
    { intros ch Hch. rewrite (Hlast ch Hch). f_equal. }
    split; [|split; [exact Hnil|]].
    + intros i ch Hi Hneg. pose proof (Hfail i ch Hi Hneg) as Hi'.
      split; [exact Hi'|]. rewrite (Hlast' ch).
      * f_equal. lia.
      * rewrite last_lookup, <- Hi'. exact Hi.
    + intros Hneg. destruct (last chunks) as [ch|] eqn:El.
      * exists ch. split; [reflexivity|]. apply Hlast'. reflexivity.
      * apply last_None in El. specialize (Hnil El). lia.
  - intros fuel tx Hlen Htxlen Hvmem Htx Hfuel.
    destruct (write_vmem16_bus9_run write vmem16 txbuf_len len tx fuel)
      as (ret & chunks & n & pad & Hrun & _ & _ & _ & _ & Hn & _
          & Hcat & Hstop); try assumption.
    exists ret, chunks, n, pad. split; [exact Hrun|]. split; [exact Hn|].
    split; [exact Hcat|]. intros Hret.
    destruct (decide (n = Z.to_nat (len / 2))) as [->|Hne]; [reflexivity|].
    destruct Hstop as [_ Hneg]; lia.
Qed.

Lemma write_vmem16_bus9_stops_at_failed_write_witness :
  exists ret chunks,
    write_vmem16_bus9 (fun k _ => if decide (k = 1%nat) then -5 else 0)
      (replicate 20 0xFFFF) 24 40 23 (Some (replicate 12 0))
    = Done (ret, chunks) /\
    (forall i ch, chunks !! i = Some ch ->
       (if decide (i = 1%nat) then -5 else 0) < 0 ->
       S i = length chunks /\
       ret = if decide (i = 1%nat) then -5 else 0).
Proof.
  destruct (write_vmem16_bus9_stops_at_failed_write
              (fun k _ => if decide (k = 1%nat) then -5 else 0)
              (replicate 20 0xFFFF) 24 40)
    as (_ & Hany & Hsized).
  destruct (Hsized 23%nat (replicate 12 0))
    as (ret & chunks & n & pad & Hrun & _).
  - vm_compute. split; discriminate.
  - vm_compute. split; discriminate.
  - cbn. lia.
  - cbn. lia.
  - vm_compute. lia.
  - exists ret, chunks. split; [exact Hrun|].
    apply (Hany _ _ _ _ Hrun).
Defined.

(** With a transmit buffer of fewer than 24 bytes [buf_len] is 0: the
    inner loop converts nothing, [j] stays 0 and [write] is handed no
    words.  As long as [write] accepts that, the outer loop never ends,
    whatever the budget. *)
Theorem write_vmem16_bus9_small_buffer_spins
    write vmem16 txbuf_len len tx fuel :
  0 <= txbuf_len < 24 -> 2 <= len ->
  (forall k, 0 <= write k []) ->
  write_vmem16_bus9 write vmem16 txbuf_len len fuel (Some tx)
  = Halt OutOfFuel.
Proof.
  intros Htx Hlen Hw. cbn [write_vmem16_bus9].
  apply send_chunks_spins; assumption.
Qed.

Lemma write_vmem16_bus9_small_buffer_spins_witness :
  write_vmem16_bus9 (fun _ _ => 0) [0xFFFF] 20 2 1000 (Some (replicate 10 0))
  = Halt OutOfFuel.
Proof.
  apply write_vmem16_bus9_small_buffer_spins.
  - lia.
  - lia.
  - intros. lia.
Defined.

Lemma land_0xff x : Z.land x 0xff = x mod 256.
Proof. change 0xff with (Z.ones 8). rewrite Z.land_ones by lia. reflexivity. Qed.

(** [set_addr_win] sends every coordinate of the panel as it is: the
    [& 0xff] changes nothing for 0 .. [WIDTH] - 1 and 0 .. [HEIGHT] - 1.
    The window is set columns first, then rows, then RAMWR. *)
Theorem set_addr_win_on_panel xs ys xe ye :
  0 <= xs < WIDTH -> 0 <= xe < WIDTH ->
  0 <= ys < HEIGHT -> 0 <= ye < HEIGHT ->
  set_addr_win xs ys xe ye
  = [fb_write_reg [EPSON_CASET; xs; xe];
     fb_write_reg [EPSON_PASET; ys; ye];
     fb_write_reg [EPSON_RAMWR]].
Proof.
  unfold WIDTH, HEIGHT, set_addr_win. intros Hxs Hxe Hys Hye.
  rewrite !land_0xff, !Z.mod_small by lia. reflexivity.
Qed.

Lemma set_addr_win_on_panel_witness :
  set_addr_win 0 0 131 131
  = [fb_write_reg [EPSON_CASET; 0; 131];
     fb_write_reg [EPSON_PASET; 0; 131];
     fb_write_reg [EPSON_RAMWR]].
Proof.
  apply set_addr_win_on_panel; unfold WIDTH, HEIGHT; lia.
Defined.

End fb_s1d15g00_facts.

(** ** The helpers of the userfaultfd test *)

Section userfaultfd_facts.
Import userfaultfd.

Lemma my_bcmp_from_spec str1 str2 (count : nat) : forall i : nat,
  (i + count <= length str1)%nat ->
  (i + count <= length str2)%nat ->
  exists r,
    my_bcmp_from str1 str2 i count = Some r /\
    (r = 0 \/ r = 1) /\
    (r = 0 <-> take count (drop i str1) = take count (drop i str2)).
Proof.
  induction count as [|count IH]; intros i H1 H2.
  - exists 0. rewrite !take_0.
    split; [reflexivity|]. split; [left; reflexivity|]. split; reflexivity.
  - destruct (lookup_lt_is_Some_2 str1 i ltac:(lia)) as [a Ha].
    destruct (lookup_lt_is_Some_2 str2 i ltac:(lia)) as [b Hb].
    cbn [my_bcmp_from]. rewrite Ha, Hb. cbn [mbind option_bind].
    rewrite (drop_S _ _ _ Ha), (drop_S _ _ _ Hb). cbn [take].
    destruct (decide (a = b)) as [->|Hab].
    + rewrite bool_decide_eq_false_2 by auto.
      destruct (IH (S i)) as (r & -> & Hr & Hiff); try lia.
      exists r. split; [reflexivity|]. split; [exact Hr|].
      rewrite Hiff. split; [intros ->; reflexivity|intros [= ?]; assumption].
    + rewrite bool_decide_eq_true_2 by assumption.
      exists 1. split; [reflexivity|]. split; [auto|].
      split; [lia|intros [= ? _]; contradiction].
Qed.

Lemma to_ulong_small z : 0 <= z < 2 ^ 64 -> to_ulong z = z.
Proof. intros. unfold to_ulong. apply Z.mod_small. assumption. Qed.

Lemma align_down x :
  0 <= x < 2 ^ 64 ->
  Z.land x (to_ulong (Z.lnot (to_ulong (sizeof_ull - 1)))) = 8 * (x / 8).
Proof.
  intros Hx.
  change (to_ulong (Z.lnot (to_ulong (sizeof_ull - 1))))
    with (Z.land (Z.lnot (Z.ones 3)) (Z.ones 64)).
  rewrite (Z.land_comm (Z.lnot _)), Z.land_assoc.
  rewrite (Z.land_ones x 64), (Z.mod_small x) by lia.
  rewrite <- Z.ldiff_land, Z.ldiff_ones_r by lia.
  rewrite Z.shiftl_mul_pow2, Z.shiftr_div_pow2 by lia.
  change (2 ^ 3) with 8. lia.
Qed.

Lemma area_count_no_wrap sizeof_mutex page_size area nr :
  0 <= area + nr * page_size + sizeof_mutex + sizeof_ull - 1 < 2 ^ 64 ->
  area_count sizeof_mutex page_size area nr
  = 8 * ((area + nr * page_size + sizeof_mutex + 7) / 8).
Proof.
  intros H. unfold area_count.
  rewrite to_ulong_small by assumption.
  rewrite align_down by assumption.
  unfold sizeof_ull. do 2 f_equal. lia.
Qed.

(** [my_bcmp] on two arrays of at least [n] bytes returns 0 when their
    first [n] bytes agree and 1 when they do not, and nothing else. *)
Theorem my_bcmp_compares str1 str2 n :
  0 <= n <= Z.of_nat (length str1) ->
  n <= Z.of_nat (length str2) ->
  exists r,
    my_bcmp str1 str2 n = Some r /\
    (r = 0 \/ r = 1) /\
    (r = 0 <-> take (Z.to_nat n) str1 = take (Z.to_nat n) str2).
Proof.
  intros H1 H2. unfold my_bcmp.
  destruct (my_bcmp_from_spec str1 str2 (Z.to_nat n) 0) as (r & E & Hr & Hiff);
    try lia.
  rewrite !drop_0 in Hiff. exists r. auto.
Qed.

Lemma my_bcmp_compares_witness :
  exists r,
    my_bcmp [1; 2; 3] [1; 2; 4] 2 = Some r /\
    (r = 0 \/ r = 1) /\
    (r = 0 <-> take (Z.to_nat 2) [1; 2; 3] = take (Z.to_nat 2) [1; 2; 4]).
Proof.
  apply my_bcmp_compares; cbn; lia.
Defined.

(** Once [main] has let the page size pass, the counter of every page of
    an area that [posix_memalign] aligned to the page size lies in that
    page, behind the mutex at the start of the page and fewer than eight
    bytes away from it, at an address that is a multiple of eight. *)
Theorem area_count_in_page sizeof_mutex page_size area nr nr_pages :
  0 <= sizeof_mutex <= LONG_MAX ->
  0 < page_size -> page_size mod 8 = 0 ->
  0 <= area -> area mod page_size = 0 ->
  0 <= nr < nr_pages ->
  area + nr_pages * page_size <= 2 ^ 64 ->
  ~ to_ulong (area_count sizeof_mutex page_size 0 0 + sizeof_ull)
    > page_size ->
  let mutex := area_mutex page_size area nr in
  let count := area_count sizeof_mutex page_size area nr in
  mutex = area + nr * page_size /\
  mutex + sizeof_mutex <= count < mutex + sizeof_mutex + 8 /\
  count + sizeof_ull <= mutex + page_size /\
  count mod 8 = 0.
Proof.
  intros Hm Hps Hps8 Harea Halign Hnr Hfit Hcheck mutex count.
  unfold LONG_MAX in Hm.
  rewrite area_count_no_wrap in Hcheck by (unfold sizeof_ull; lia).
  rewrite to_ulong_small in Hcheck by (unfold sizeof_ull; mod_lia).
  unfold sizeof_ull in Hcheck.
  assert (sizeof_mutex + 8 <= page_size) as Hroom by mod_lia.
  assert (area + (nr + 1) * page_size <= 2 ^ 64) as Hend by nia.
  assert (0 <= nr * page_size) by nia.
  assert ((area + nr * page_size) mod 8 = 0) as Hbase.
  { assert (area mod 8 = 0).
    { apply Z.mod_divide; [lia|].
      apply Z.divide_trans with page_size; apply Z.mod_divide; lia. }
    assert ((nr * page_size) mod 8 = 0).
    { apply Z.mod_divide; [lia|]. apply Z.divide_mul_r.
      apply Z.mod_divide; lia. }
    mod_lia. }
  unfold mutex, count, area_mutex.
  rewrite to_ulong_small by lia.
  rewrite area_count_no_wrap by (unfold sizeof_ull; lia).
  unfold sizeof_ull. repeat split; try mod_lia.
Qed.

Lemma area_count_in_page_witness :
  area_mutex 4096 65536 3 = 65536 + 3 * 4096 /\
  area_mutex 4096 65536 3 + 40 <= area_count 40 4096 65536 3
    < area_mutex 4096 65536 3 + 40 + 8 /\
  area_count 40 4096 65536 3 + sizeof_ull <= area_mutex 4096 65536 3 + 4096 /\
  area_count 40 4096 65536 3 mod 8 = 0.
Proof.
  apply (area_count_in_page 40 4096 65536 3 8).
  - unfold LONG_MAX. lia.
  - lia.
  - reflexivity.
  - lia.
  - reflexivity.
  - lia.
  - lia.
  - vm_compute. intros H. discriminate H.
Defined.

(** A run of [main] that gets as far as the stress test, with sane answers
    of [sysconf] and a size that is not negative, has set the globals so
    that the pages of an area take no more than the MiB asked for: there
    is at least one page per CPU and one bounce, [nr_pages] is
    [nr_pages_per_cpu * nr_cpus] without wrap-around, and the counter of
    a page has room in it. *)
Theorem main_stays_within_request
    sizeof_mutex argc mib nbounces nproc pagesz g :
  0 <= sizeof_mutex <= LONG_MAX ->
  0 <= mib ->
  0 < nproc <= LONG_MAX -> 0 < pagesz <= LONG_MAX ->
  main sizeof_mutex argc mib nbounces nproc pagesz = Some (Stress g) ->
  3 <= argc /\
  nr_cpus g = nproc /\ page_size g = pagesz /\
  0 < bounces g /\
  0 < nr_pages_per_cpu g /\
  nr_pages g = nr_pages_per_cpu g * nr_cpus g /\
  nr_pages g * page_size g <= mib * 1024 * 1024 /\
  sizeof_mutex + sizeof_ull <= page_size g.
Proof.
  unfold LONG_MAX. intros Hm Hmib Hnproc Hpagesz. unfold main.
  rewrite (to_ulong_small nproc), (to_ulong_small pagesz) by lia.
  repeat (case_bool_decide; try discriminate).
  intros [= <-]. cbn [nr_cpus page_size bounces nr_pages_per_cpu nr_pages].
  match goal with H : LONG_MIN <= _ <= _ |- _ => unfold LONG_MIN, LONG_MAX in H end.
  rewrite (to_ulong_small (mib * 1024 * 1024)) in * by lia.
  set (bytes := mib * 1024 * 1024) in *.
  set (per_cpu := bytes / pagesz / nproc) in *.
  assert (0 <= per_cpu) by (unfold per_cpu; repeat apply Z.div_pos; lia).
  assert (per_cpu * nproc <= bytes / pagesz) as Hcpu
    by (unfold per_cpu; rewrite Z.mul_comm; apply Z.mul_div_le; lia).
  assert (bytes / pagesz * pagesz <= bytes) as Hpg
    by (rewrite Z.mul_comm; apply Z.mul_div_le; lia).
  assert (0 <= bytes / pagesz) by (apply Z.div_pos; lia).
  rewrite to_ulong_small by nia.
  match goal with H : ~ to_ulong _ > _ |- _ =>
    rewrite area_count_no_wrap in H by (unfold sizeof_ull; lia);
    rewrite to_ulong_small in H by (unfold sizeof_ull; mod_lia);
    unfold sizeof_ull in H end.
  unfold sizeof_ull.
  repeat split; try lia; try nia; try mod_lia.
Qed.

Lemma main_stays_within_request_witness :
  exists g,
    main 40 3 128 5 4 4096 = Some (Stress g) /\
    nr_pages g = 32768 /\
    nr_pages g * page_size g <= 128 * 1024 * 1024.
Proof.
  exists (mk_globals 4 32768 8192 4096 5).
  assert (main 40 3 128 5 4 4096
          = Some (Stress (mk_globals 4 32768 8192 4096 5))) as E
    by (vm_compute; reflexivity).
  split; [exact E|]. split; [reflexivity|].
  apply (main_stays_within_request 40 3 128 5 4 4096 _); try exact E.
  - unfold LONG_MAX. lia.
  - lia.
  - unfold LONG_MAX. lia.
  - unfold LONG_MAX. lia.
Defined.

(** A negative size is not turned away as "invalid MiB": the product is
    converted to [unsigned long] for the division by the page size, and
    the test is started with pages for more than 2^62 bytes. *)
Theorem main_takes_negative_MiB
    sizeof_mutex argc mib nbounces nproc pagesz :
  0 <= sizeof_mutex -> sizeof_mutex + 2 * sizeof_ull <= pagesz ->
  3 <= argc -> 0 < nbounces ->
  mib < 0 -> LONG_MIN <= mib * 1024 * 1024 ->
  0 < nproc -> 0 < pagesz -> nproc * pagesz <= 2 ^ 62 ->
  exists g,
    main sizeof_mutex argc mib nbounces nproc pagesz = Some (Stress g) /\
    2 ^ 62 <= nr_pages g * page_size g.
Proof.
  unfold LONG_MIN. intros Hm Hroom Hargc Hb Hneg Hmin Hnproc Hpagesz Hprod.
  assert (pagesz <= 2 ^ 62) by nia. assert (nproc <= 2 ^ 62) by nia.
  unfold main.
  rewrite (to_ulong_small nproc), (to_ulong_small pagesz) by lia.
  rewrite area_count_no_wrap by (unfold sizeof_ull in *; lia).
  rewrite (to_ulong_small (_ + sizeof_ull))
    by (unfold sizeof_ull in *; mod_lia).
  rewrite (bool_decide_eq_false_2 (argc < 3)) by lia.
  rewrite (bool_decide_eq_false_2 (_ > pagesz))
    by (unfold sizeof_ull in *; mod_lia).
  rewrite (bool_decide_eq_true_2 (LONG_MIN <= _ <= LONG_MAX))
    by (unfold LONG_MIN, LONG_MAX; lia).
  rewrite (bool_decide_eq_false_2 (_ \/ _)) by lia.
  set (bytes := to_ulong (mib * 1024 * 1024)).
  assert (2 ^ 63 <= bytes < 2 ^ 64) as Hbytes.
  { unfold bytes, to_ulong.
    replace (mib * 1024 * 1024) with (2 ^ 64 + mib * 1024 * 1024 + -1 * 2 ^ 64)
      by lia.
    rewrite Z.mod_add, Z.mod_small by lia. lia. }
  set (per_cpu := bytes / pagesz / nproc).
  assert (bytes < pagesz * (bytes / pagesz) + pagesz) as Hpg.
  { pose proof (Z.mod_pos_bound bytes pagesz ltac:(lia)).
    pose proof (Z.div_mod bytes pagesz ltac:(lia)). lia. }
  assert (bytes / pagesz < nproc * per_cpu + nproc) as Hcpu.
  { pose proof (Z.mod_pos_bound (bytes / pagesz) nproc ltac:(lia)).
    pose proof (Z.div_mod (bytes / pagesz) nproc ltac:(lia)).
    unfold per_cpu. lia. }
  assert (per_cpu * nproc <= bytes / pagesz) as Hcpu'
    by (unfold per_cpu; rewrite Z.mul_comm; apply Z.mul_div_le; lia).
  assert (bytes / pagesz * pagesz <= bytes) as Hpg'
    by (rewrite Z.mul_comm; apply Z.mul_div_le; lia).
  assert (0 <= bytes / pagesz) by (apply Z.div_pos; lia).
  assert (0 <= per_cpu) by (unfold per_cpu; apply Z.div_pos; lia).
  assert (0 < per_cpu) by nia.
  rewrite (bool_decide_eq_false_2 (per_cpu = 0)) by lia.
  rewrite (bool_decide_eq_false_2 (nbounces <= 0)) by lia.
  eexists. split; [reflexivity|].
  cbn [nr_pages page_size].
  rewrite to_ulong_small by nia. nia.
Qed.

Lemma main_takes_negative_MiB_witness :
  exists g,
    main 40 3 (-1) 5 4 4096 = Some (Stress g) /\
    2 ^ 62 <= nr_pages g * page_size g.
Proof.
  apply main_takes_negative_MiB; unfold sizeof_ull, LONG_MIN; lia.
Defined.
End userfaultfd_facts.
